(** * JTAG device functions of rvdbg ([jtag/device.go]).

    A [Device] is a view onto one TAP of a JTAG scan chain.  Its IR and DR
    operations pad the caller's bits with the bypass bits of the other
    devices, hand the chain-wide sequence to the scan driver and strip the
    reply back to this device's bits.

    The development embeds [device.go] over
    - Go's [int] and [uint] as [Z] with 64-bit wrap-around ([GoInt]),
    - the bit strings of package [bitstr] as [list bool] ([bitstr]),
    - the scan driver as a record of state-passing functions, called
      through a small state monad whose state holds the device, the
      driver's state and the log of the calls that reached the driver. *)

From Stdlib Require Import ZArith List String Ascii Bool Lia DecimalString.
Import ListNotations.
Open Scope Z_scope.

(* ===================================================================== *)
(** ** Outcomes of Go code *)

(** A Go function either returns or panics at run time; a loop of the
    model can also use up its fuel. *)
Inductive panic : Type :=
| RangeError        (* bitstr: drop or split beyond the bounds *)
| NilDereference    (* method call through a nil *BitString *)
| IndexOutOfRange   (* slice index out of range *)
| NegativeShift.    (* shift by a negative count *)

Inductive result (A : Type) : Type :=
| Val (a : A)
| Panic (p : panic)
| OutOfFuel.
Arguments Val {A} a.
Arguments Panic {A} p.
Arguments OutOfFuel {A}.

(** Go's [error] interface value, identified by its message; [None] is
    [nil]. *)
Inductive error : Type := Error (msg : string).

(* ===================================================================== *)
(** ** Go integers *)

Module GoInt.

(** [int] is 64 bits wide, two's complement. *)
Definition int_min : Z := - 2 ^ 63.
Definition int_max : Z := 2 ^ 63 - 1.
Definition in_int (z : Z) : Prop := int_min <= z <= int_max.

Definition wrap (z : Z) : Z := (z + 2 ^ 63) mod 2 ^ 64 - 2 ^ 63.

Definition add (a b : Z) : Z := wrap (a + b).
Definition sub (a b : Z) : Z := wrap (a - b).

(** [a << n] on [int]: a negative count panics, a count of 64 or more
    shifts every bit out. *)
Definition shl (a n : Z) : result Z :=
  if n <? 0 then Panic NegativeShift
  else if 64 <=? n then Val 0
  else Val (wrap (Z.shiftl a n)).

(** [uint] is 64 bits wide; [uint(x)] keeps the low 64 bits. *)
Definition uint (z : Z) : Z := z mod 2 ^ 64.

(** [len(s)] of a slice. *)
Definition len {A : Type} (s : list A) : Z := Z.of_nat (List.length s).

End GoInt.

(** [fmt]'s verb [%d]. *)
Definition fmt_d (z : Z) : string := NilZero.string_of_int (Z.to_int z).

(** [strings.Join]. *)
Definition Join (s : list string) (sep : string) : string := String.concat sep s.

Definition newline : string := String (ascii_of_nat 10) EmptyString.

(* ===================================================================== *)
(** ** Bit strings *)

Module bitstr.

(** Modelled from the spec: package [bitstr] (type [BitString] and its
    functions [Ones], [Zeros], [FromUint], [Tail], [Tail1], [DropHead],
    [DropTail], [Split]) is not among the sources.  The spec, section
    4.1, describes an ordered sequence of bits, most significant bit
    first; the head of the list is the first bit of the sequence. *)
Definition BitString : Type := list bool.

(** Modelled from the spec: [ones(n)], a sequence of n set bits, defined
    for n >= 0; a negative n yields the empty sequence here. *)
Definition Ones (n : Z) : BitString := repeat true (Z.to_nat n).

(** Modelled from the spec: [zeros(n)], a sequence of n clear bits. *)
Definition Zeros (n : Z) : BitString := repeat false (Z.to_nat n).

(** Modelled from the spec: [fromValue(x, width)], the low [width] bits
    of x, most significant bit first; of the two behaviours the spec
    allows for an x that does not fit, this is the truncating one. *)
Definition FromUint (x : Z) (width : Z) : BitString :=
  map (fun i => Z.testbit x (Z.of_nat i)) (rev (seq 0 (Z.to_nat width))).

(** Modelled from the spec: [append(other)], the receiver's bits followed
    by [other]'s. *)
Definition Tail (b a : BitString) : BitString := b ++ a.

(** Modelled from the spec: [appendOnes(n)]. *)
Definition Tail1 (b : BitString) (n : Z) : BitString := b ++ Ones n.

(** Modelled from the spec: [dropHead(n)] removes the first n bits and
    fails with a range error if n exceeds the length.  The Go method
    returns only the handle, so the failure is a panic.  It shortens
    its receiver in place and returns the same handle: the value here
    is the receiver's new content. *)
Definition DropHead (b : BitString) (n : Z) : result BitString :=
  if GoInt.len b <? n then Panic RangeError
  else Val (skipn (Z.to_nat n) b).

(** Modelled from the spec: [dropTail(n)] removes the last n bits, with
    the failure and the in-place update of [DropHead]. *)
Definition DropTail (b : BitString) (n : Z) : result BitString :=
  if GoInt.len b <? n then Panic RangeError
  else Val (firstn (List.length b - Z.to_nat n) b).

(** The unsigned integer a piece stands for, most significant bit
    first. *)
Definition to_Z (b : BitString) : Z :=
  fold_left (fun acc (x : bool) => 2 * acc + (if x then 1 else 0)) b 0.

Fixpoint pieces (lengths : list Z) (b : BitString) : list Z :=
  match lengths with
  | [] => []
  | n :: rest =>
      GoInt.uint (to_Z (firstn (Z.to_nat n) b)) :: pieces rest (skipn (Z.to_nat n) b)
  end.

(** Modelled from the spec: [split(lengths)] partitions the sequence
    into consecutive pieces of the given lengths, each returned as an
    unsigned integer ([uint]), and fails with a range error when the
    lengths do not sum to the sequence's length. *)
Definition Split (b : BitString) (lengths : list Z) : result (list Z) :=
  if fold_right Z.add 0 lengths =? GoInt.len b then Val (pieces lengths b)
  else Panic RangeError.

End bitstr.

Import bitstr.

(* ===================================================================== *)
(** ** The chain, the driver and the device *)

Module jtag.

Section Types.

(** The state of whatever is behind the driver: the probe and the
    chain's shift registers. *)
Context {St : Type}.

(** The two methods of interface [Driver] that a device calls.  Each
    returns Go's pair [(tdo, err)], where [tdo] may be [nil]. *)
Record Driver : Type := {
  ScanIR : BitString -> bool -> St -> (option BitString * option error) * St;
  ScanDR : BitString -> Z -> bool -> St -> (option BitString * option error) * St;
}.

(** One entry of [ch.info]. *)
Record DeviceInfo : Type := {
  Name : string;
  ID : Z;
  IRLength : Z;
}.

(** The fields of [Chain] that [device.go] reads.  Its method
    [drLength] is not among the sources: it is the live probe of the
    chain's total DR length, [(n, err)], taken as given. *)
Record Chain : Type := {
  ch_drv : Driver;
  info : list DeviceInfo;
  drLength : St -> (Z * option error) * St;
}.

Record Device : Type := {
  idx : Z;
  chain : Chain;
  drv : Driver;
  name : string;
  idcode : Z;
  irlen : Z;
  irlenBefore : Z;
  irlenAfter : Z;
  devsBefore : Z;
  devsAfter : Z;
}.

(** Modelled from the spec: [ch.info.irLengthBefore(idx)], the IR bits
    of the devices strictly before [idx]; the method is not among the
    sources. *)
Definition irLengthBefore (ci : list DeviceInfo) (i : Z) : Z :=
  fold_left (fun acc d => GoInt.add acc (IRLength d)) (firstn (Z.to_nat i) ci) 0.

(** Modelled from the spec: [ch.info.irLengthAfter(idx)], the IR bits of
    the devices strictly after [idx]; the method is not among the
    sources. *)
Definition irLengthAfter (ci : list DeviceInfo) (i : Z) : Z :=
  fold_left (fun acc d => GoInt.add acc (IRLength d)) (skipn (S (Z.to_nat i)) ci) 0.

(** [ch.info[idx]] panics outside the slice. *)
Definition index (ci : list DeviceInfo) (i : Z) : result DeviceInfo :=
  if (i <? 0) || (GoInt.len ci <=? i) then Panic IndexOutOfRange
  else match nth_error ci (Z.to_nat i) with
       | Some d => Val d
       | None => Panic IndexOutOfRange
       end.

Definition NewDevice (ch : Chain) (i : Z) : result Device :=
  match index (info ch) i with
  | Val d =>
      Val {| idx := i;
             chain := ch;
             drv := ch_drv ch;
             name := Name d;
             idcode := ID d;
             irlen := IRLength d;
             irlenBefore := irLengthBefore (info ch) i;
             irlenAfter := irLengthAfter (info ch) i;
             devsBefore := i;
             devsAfter := GoInt.sub (GoInt.sub (GoInt.len (info ch)) i) 1 |}
  | Panic p => Panic p
  | OutOfFuel => OutOfFuel
  end.

(* ------------------------------------------------------------------- *)
(** *** The state the methods run in *)

(** A call that reached the driver or the chain. *)
Inductive event : Type :=
| EvScanIR (tdi : BitString) (needTdo : bool)
| EvScanDR (tdi : BitString) (idle : Z) (needTdo : bool)
| EvDRLength.

(** The methods have the receiver [dev *Device]: the device is a cell of
    the store.  Beside it are the driver's state and the log of calls. *)
Record Mem : Type := {
  mdev : Device;
  mdrv : St;
  mlog : list event;
}.

Definition M (A : Type) : Type := Mem -> result A * Mem.

Definition ret {A} (a : A) : M A := fun m => (Val a, m).

Definition bind {A B} (c : M A) (k : A -> M B) : M B :=
  fun m =>
    match c m with
    | (Val a, m') => k a m'
    | (Panic p, m') => (Panic p, m')
    | (OutOfFuel, m') => (OutOfFuel, m')
    end.

Definition lift {A} (r : result A) : M A := fun m => (r, m).

(** Reading the receiver. *)
Definition this : M Device := fun m => (Val (mdev m), m).

(** [dev.drv.ScanIR(tdi, needTdo)].  The driver holds no reference to
    the device: the call changes the driver's state only. *)
Definition drvScanIR (tdi : BitString) (needTdo : bool)
  : M (option BitString * option error) :=
  fun m =>
    let '(r, st) := ScanIR (drv (mdev m)) tdi needTdo (mdrv m) in
    (Val r, {| mdev := mdev m; mdrv := st;
               mlog := mlog m ++ [EvScanIR tdi needTdo] |}).

(** [dev.drv.ScanDR(tdi, idle, needTdo)]. *)
Definition drvScanDR (tdi : BitString) (idle : Z) (needTdo : bool)
  : M (option BitString * option error) :=
  fun m =>
    let '(r, st) := ScanDR (drv (mdev m)) tdi idle needTdo (mdrv m) in
    (Val r, {| mdev := mdev m; mdrv := st;
               mlog := mlog m ++ [EvScanDR tdi idle needTdo] |}).

(** [dev.chain.drLength()]. *)
Definition chainDrLength : M (Z * option error) :=
  fun m =>
    let '(r, st) := drLength (chain (mdev m)) (mdrv m) in
    (Val r, {| mdev := mdev m; mdrv := st; mlog := mlog m ++ [EvDRLength] |}).

End Types.

Arguments Driver : clear implicits.
Arguments Chain : clear implicits.
Arguments Device : clear implicits.
Arguments Mem : clear implicits.
Arguments M : clear implicits.

Declare Scope go_scope.
Delimit Scope go_scope with go.
Notation "x <- c ;; k" := (bind c (fun x => k))
(at level 61, c at next level, right associativity) : go_scope.
Open Scope go_scope.

Section Methods.

Context {St : Type}.

#[local] Abbreviation M := (M St).

(** Calling a method through a [*BitString] that is nil. *)
Definition deref (p : option BitString) : M BitString :=
  match p with
  | Some b => ret b
  | None => lift (Panic NilDereference)
  end.

(** [s[0]]. *)
Definition at0 (s : list Z) : M Z :=
  match s with
  | v :: _ => ret v
  | [] => lift (Panic IndexOutOfRange)
  end.

(** [WrIR] writes to IR for a device. *)
Definition WrIR (wr : BitString) : M (option error) :=
  dev <- this ;;
  (* place other devices into bypass mode (IR = all 1's) *)
  let tdi := Tail1 (Tail (Ones (irlenBefore dev)) wr) (irlenAfter dev) in
  r <- drvScanIR tdi false ;;
  ret (snd r).

(** [RdWrIR] reads and writes IR for a device. *)
Definition RdWrIR (wr : BitString) : M (option BitString * option error) :=
  dev <- this ;;
  let tdi := Tail1 (Tail (Ones (irlenBefore dev)) wr) (irlenAfter dev) in
  r <- drvScanIR tdi true ;;
  match snd r with
  | Some err => ret (None, Some err)
  | None =>
      (* strip the IR bits from the other devices *)
      dev <- this ;;
      tdo <- deref (fst r) ;;
      tdo <- lift (DropHead tdo (irlenBefore dev)) ;;
      tdo <- lift (DropTail tdo (irlenAfter dev)) ;;
      ret (Some tdo, None)
  end.

(** [WrDR] writes to DR for a device. *)
Definition WrDR (wr : BitString) (idle : Z) : M (option error) :=
  dev <- this ;;
  (* other devices are assumed to be in bypass mode (DR length = 1) *)
  let tdi := Tail1 (Tail (Ones (devsBefore dev)) wr) (devsAfter dev) in
  r <- drvScanDR tdi idle false ;;
  ret (snd r).

(** [RdWrDR] reads and writes DR for a device. *)
Definition RdWrDR (wr : BitString) (idle : Z) : M (option BitString * option error) :=
  dev <- this ;;
  let tdi := Tail1 (Tail (Ones (devsBefore dev)) wr) (devsAfter dev) in
  r <- drvScanDR tdi idle true ;;
  match snd r with
  | Some err => ret (None, Some err)
  | None =>
      (* strip the DR bits from the bypassed devices *)
      dev <- this ;;
      tdo <- deref (fst r) ;;
      tdo <- lift (DropHead tdo (devsBefore dev)) ;;
      tdo <- lift (DropTail tdo (devsAfter dev)) ;;
      ret (Some tdo, None)
  end.

(** [testIRCapture] tests the IR capture result. *)
Definition testIRCapture : M (bool * option error) :=
  dev <- this ;;
  (* write all-1s to the IR *)
  r <- RdWrIR (Ones (irlen dev)) ;;
  match snd r with
  | Some err => ret (false, Some err)
  | None =>
      dev <- this ;;
      rd <- deref (fst r) ;;
      vs <- lift (Split rd [irlen dev]) ;;
      val <- at0 vs ;;
      (* the lowest 2 bits should be "01" *)
      ret (Z.land val 3 =? 1, None)
  end.

(** [GetIRLength] returns the IR length for the device. *)
Definition GetIRLength : M Z :=
  dev <- this ;; ret (irlen dev).

(** [GetDRLength] returns the current DR length for the device. *)
Definition GetDRLength : M (Z * option error) :=
  r <- chainDrLength ;;
  match snd r with
  | Some err => ret (0, Some err)
  | None =>
      dev <- this ;;
      let n := GoInt.sub (GoInt.sub (fst r) (devsAfter dev)) (devsBefore dev) in
      ret (n, None)
  end.

(** [fmt.Errorf("ir %d dr length is %d, expected %d", ir, n, drlen)]. *)
Definition drlen_mismatch (ir n drlen : Z) : error :=
  Error ("ir " ++ fmt_d ir ++ " dr length is " ++ fmt_d n
         ++ ", expected " ++ fmt_d drlen)%string.

(** [CheckDR] verifies the DR length for a given IR and returns the DR
    value. *)
Definition CheckDR (ir : Z) (drlen : Z) : M (Z * option error) :=
  dev <- this ;;
  (* write IR *)
  err <- WrIR (FromUint ir (irlen dev)) ;;
  match err with
  | Some _ => ret (0, None)
  | None =>
      (* check the DR length *)
      r <- GetDRLength ;;
      match snd r with
      | Some _ => ret (0, None)
      | None =>
          let n := fst r in
          if negb (n =? drlen) then ret (0, Some (drlen_mismatch ir n drlen))
          else
            (* get the value *)
            r <- RdWrDR (Zeros drlen) 0 ;;
            match snd r with
            | Some err => ret (0, Some err)
            | None =>
                tdo <- deref (fst r) ;;
                vs <- lift (Split tdo [drlen]) ;;
                v <- at0 vs ;;
                ret (GoInt.uint v, None)
            end
      end
  end.

(** [GetIDCode] returns the JTAG ID code for the device. *)
Definition GetIDCode : M Z :=
  dev <- this ;; ret (idcode dev).

(** The three lines [Survey] formats. *)
Definition line_cant_write (ir : Z) : string :=
  ("ir " ++ fmt_d ir ++ " can't write ir")%string.
Definition line_unknown (ir : Z) : string :=
  ("ir " ++ fmt_d ir ++ " drlen unknown")%string.
Definition line_drlen (ir n : Z) : string :=
  ("ir " ++ fmt_d ir ++ " drlen " ++ fmt_d n)%string.

(** The loop of [Survey], [for ir := 0; ir < (1 << dev.irlen); ir++],
    entered with the current [ir] and the lines appended so far. *)
Fixpoint Survey_loop (fuel : nat) (ir : Z) (s : list string) : M (list string) :=
  match fuel with
  | O => lift OutOfFuel
  | S fuel =>
      dev <- this ;;
      bound <- lift (GoInt.shl 1 (irlen dev)) ;;
      if ir <? bound then
        err <- WrIR (FromUint (GoInt.uint ir) (irlen dev)) ;;
        match err with
        | Some _ =>
            Survey_loop fuel (GoInt.add ir 1) (s ++ [line_cant_write ir])
        | None =>
            r <- chainDrLength ;;
            match snd r with
            | Some _ =>
                Survey_loop fuel (GoInt.add ir 1) (s ++ [line_unknown ir])
            | None =>
                dev <- this ;;
                let n := GoInt.sub (GoInt.sub (fst r) (devsAfter dev)) (devsBefore dev) in
                Survey_loop fuel (GoInt.add ir 1) (s ++ [line_drlen ir n])
            end
        end
      else ret s
  end.

(** [Survey] returns a string with all IR values and corresponding DR
    lengths. *)
Definition Survey (fuel : nat) : M string :=
  s <- Survey_loop fuel 0 [] ;;
  ret (Join s newline).

End Methods.

Section SurveyAsSpecified.

Context {St : Type}.

#[local] Abbreviation M := (M St).

(** The survey in the spec's words (section 4.5): for every possible IR
    value, write that value to IR, then query the current DR length, and
    produce the report line of the value, or an error line if either
    step fails. *)
Definition report_line (v : Z) : M string :=
  dev <- this ;;
  err <- WrIR (FromUint v (irlen dev)) ;;
  match err with
  | Some _ => ret (line_cant_write v)
  | None =>
      r <- GetDRLength ;;
      match snd r with
      | Some _ => ret (line_unknown v)
      | None => ret (line_drlen v (fst r))
      end
  end.

(** One line per value, in the order of the values; a failure for one
    value does not stop the walk. *)
Fixpoint report_lines (irs : list Z) : M (list string) :=
  match irs with
  | [] => ret []
  | v :: rest =>
      l <- report_line v ;;
      ls <- report_lines rest ;;
      ret (l :: ls)
  end.

(** The chain-wide sequence that writes the value v to the device's IR. *)
Definition ir_write (dev : Device St) (v : Z) : BitString :=
  Ones (irlenBefore dev) ++ FromUint v (irlen dev) ++ Ones (irlenAfter dev).

(** The values from [lo], [k] of them, ascending. *)
Definition values_from (lo : Z) (k : nat) : list Z :=
  map Z.of_nat (seq (Z.to_nat lo) k).

(** Every possible IR value of an n-bit IR: 0, 1, ..., 2^n - 1. *)
Definition ir_values (n : Z) : list Z := values_from 0 (Z.to_nat (2 ^ n)).

Definition is_ir_scan (e : @event) : bool :=
  match e with
  | EvScanIR _ _ => true
  | _ => false
  end.

(** The survey is complete when, given fuel, it returns with one line for
    each of the 2^irlen values. *)
Definition Survey_complete (m : Mem St) : Prop :=
  exists (fuel : nat) (s : list string) (m' : Mem St),
    Survey_loop fuel 0 [] m = (Val s, m')
    /\ GoInt.len s = 2 ^ irlen (mdev m).

End SurveyAsSpecified.

(** A computation keeps the device when the device cell of the store is
    the same after it as before, whatever its outcome. *)
Definition keeps_dev {St A : Type} (c : M St A) : Prop :=
  forall m : Mem St, mdev (snd (c m)) = mdev m.

End jtag.

(* ===================================================================== *)
(** ** Stub drivers and chains *)

Module stub.

Import jtag.

Definition transport : error := Error "transport failure".

(** The loopback driver: a scan that captures returns the chain-wide
    sequence it was given. *)
Definition echo : Driver unit :=
  {| ScanIR := fun tdi needTdo st => ((if needTdo then Some tdi else None, None), st);
     ScanDR := fun tdi _ needTdo st => ((if needTdo then Some tdi else None, None), st) |}.

(** A driver that cannot complete any scan. *)
Definition broken : Driver unit :=
  {| ScanIR := fun _ _ st => ((None, Some transport), st);
     ScanDR := fun _ _ _ st => ((None, Some transport), st) |}.

(** A driver whose IR scans work as in [echo] and whose DR scans fail. *)
Definition dr_broken : Driver unit :=
  {| ScanIR := ScanIR echo;
     ScanDR := fun _ _ _ st => ((None, Some transport), st) |}.

(** The chain's IR as a latch: an IR scan captures the sequence loaded by
    the scan before it and loads its own; the scans picked out by [bad]
    fail and load nothing.  A DR scan captures the fixed sequence [dr]. *)
Definition latch (bad : BitString -> bool) (dr : BitString) : Driver BitString :=
  {| ScanIR := fun tdi needTdo st =>
       if bad tdi then ((None, Some transport), st)
       else ((if needTdo then Some st else None, None), tdi);
     ScanDR := fun _ _ needTdo st => ((if needTdo then Some dr else None, None), st) |}.

(** A chain over [d] whose DR-length probe answers [probe] of the driver's
    state. *)
Definition chain_of {St} (d : Driver St) (ci : list DeviceInfo)
  (probe : St -> Z * option error) : Chain St :=
  {| ch_drv := d; info := ci; drLength := fun st => (probe st, st) |}.

(** The two-device chain of the spec's scenario: IR lengths 5 and 4. *)
Definition two_taps : list DeviceInfo :=
  [ {| Name := "tap0"; ID := 1; IRLength := 5 |};
    {| Name := "tap1"; ID := 2; IRLength := 4 |} ].

(** A device given by its numbers alone. *)
Definition device_of {St} (ch : Chain St) (n nb na db da : Z) : Device St :=
  {| idx := db; chain := ch; drv := ch_drv ch; name := "tap"; idcode := 0;
     irlen := n; irlenBefore := nb; irlenAfter := na;
     devsBefore := db; devsAfter := da |}.

Definition start {St} (dev : Device St) (st : St) : Mem St :=
  {| mdev := dev; mdrv := st; mlog := [] |}.

(** What a run leaves to observe: its outcome and the calls it made. *)
Definition observe {St A} (r : result A * Mem St) : result A * list event :=
  (fst r, mlog (snd r)).

End stub.

From Stdlib Require HexadecimalString.
From Stdlib Require Import Permutation.

(* ===================================================================== *)
(** ** The J-Link driver ([jlink/jlink.go]) *)

Module jlink.

Section Library.

(** Package [libjaylink] is an external library: its context handle, its
    device type and whatever state it keeps are left open. *)
Context {Ctx Dev LibSt : Type}.

(** The library functions that [jlink.go] calls, each with its Go
    results and the library's new state. *)
Record libjaylink : Type := {
  lj_Init : LibSt -> (Ctx * option error) * LibSt;
  lj_LogSetCallback : Ctx -> LibSt -> option error * LibSt;
  lj_LogSetLevel : Ctx -> LibSt -> option error * LibSt;
  lj_DiscoveryScan : Ctx -> LibSt -> option error * LibSt;
  lj_GetDevices : Ctx -> LibSt -> (list Dev * option error) * LibSt;
  lj_FreeDevices : Ctx -> list Dev -> bool -> LibSt -> LibSt;
  lj_Exit : Ctx -> LibSt -> LibSt;
}.

(** A call into the library. *)
Inductive call : Type :=
| CInit
| CLogSetCallback (c : Ctx)
| CLogSetLevel (c : Ctx)
| CDiscoveryScan (c : Ctx)
| CGetDevices (c : Ctx)
| CFreeDevices (c : Ctx) (devs : list Dev) (unref : bool)
| CExit (c : Ctx).


(** [Jlink] stores the J-Link library context. *)
Record Jlink : Type := {
  ctx : Ctx;
  dev : list Dev;
}.

(** The library's state and the calls made so far. *)
Definition World : Type := LibSt * list call.



(** [Shutdown] closes the J-Link library. *)
Definition Shutdown (lib : libjaylink) (j : Jlink) (w : World) : World :=
  let st := lj_FreeDevices lib (ctx j) (dev j) true (fst w) in
  let tr := snd w ++ [CFreeDevices (ctx j) (dev j) true] in
  (lj_Exit lib (ctx j) st, tr ++ [CExit (ctx j)]).

(** [NumDevices] returns the number of devices discovered. *)
Definition NumDevices (j : Jlink) : Z := GoInt.len (dev j).

(** [DeviceByIndex] returns a J-Link device by index number: the
    pointer [&j.dev[idx]], here the element it points to. *)
Definition DeviceByIndex (j : Jlink) (idx : Z) : result (option Dev * option error) :=
  if (idx <? 0) || (GoInt.len (dev j) <=? idx) then
    Val (None, Some (Error ("device index " ++ fmt_d idx ++ " out of range")%string))
  else
    match nth_error (dev j) (Z.to_nat idx) with
    | Some d => Val (Some d, None)
    | None => Panic IndexOutOfRange
    end.

End Library.

Arguments libjaylink : clear implicits.
Arguments call : clear implicits.
Arguments Jlink : clear implicits.
Arguments World : clear implicits.

End jlink.

(* ===================================================================== *)
(** ** Bit fields of registers ([soc/interrupt.go]) *)

Module soc.

(** [strings.Compare]: bytewise lexicographic order, as -1, 0 or 1. *)
Definition Compare (a b : string) : Z :=
  match String.compare a b with
  | Lt => -1
  | Eq => 0
  | Gt => 1
  end.

(** [fmt]'s verb [%x] on a [uint]. *)
Definition fmt_x (z : Z) : string :=
  HexadecimalString.NilZero.string_of_uint (N.to_hex_uint (Z.to_N z)).

(** [Field] is a bit field within a register value.  [Fmt] is a function
    value and [Enums] a map from [uint] to string; both may be nil. *)
Record Field : Type := {
  Name : string;
  Msb : Z;
  Lsb : Z;
  Descr : string;
  Fmt : option (Z -> string);
  Enums : option (Z -> option string);
  cacheValid : bool;
  cacheVal : Z;
}.

(** [FieldSet] is a set of fields. *)
Definition FieldSet : Type := list Field.

(** [a[i]] on a slice. *)
Definition at_index {A : Type} (a : list A) (i : Z) : result A :=
  if (i <? 0) || (GoInt.len a <=? i) then Panic IndexOutOfRange
  else match nth_error a (Z.to_nat i) with
       | Some x => Val x
       | None => Panic IndexOutOfRange
       end.

(** [a[i] = x] on a slice whose index is in range. *)
Fixpoint store {A : Type} (a : list A) (n : nat) (x : A) : list A :=
  match a, n with
  | [], _ => []
  | _ :: r, O => x :: r
  | y :: r, S n => y :: store r n x
  end.

Definition Len (a : FieldSet) : Z := GoInt.len a.

(** [a[i], a[j] = a[j], a[i]]: both operands are read, then both are
    written, in the slice itself. *)
Definition Swap (a : FieldSet) (i j : Z) : result FieldSet :=
  match at_index a i with
  | Val ai =>
      match at_index a j with
      | Val aj => Val (store (store a (Z.to_nat i) aj) (Z.to_nat j) ai)
      | Panic p => Panic p
      | OutOfFuel => OutOfFuel
      end
  | Panic p => Panic p
  | OutOfFuel => OutOfFuel
  end.

(** Sort fields by Msb.  MSBs for registers may not be unique: tie break
    with the name to give a well-defined sort order. *)
Definition Less (a : FieldSet) (i j : Z) : result bool :=
  match at_index a i with
  | Val ai =>
      match at_index a j with
      | Val aj =>
          if Msb ai =? Msb aj then Val (Compare (Name ai) (Name aj) <? 0)
          else Val (Msb ai >? Msb aj)
      | Panic p => Panic p
      | OutOfFuel => OutOfFuel
      end
  | Panic p => Panic p
  | OutOfFuel => OutOfFuel
  end.

Section WithBits.

(** [util.Bits(x, msb, lsb)] is not among the sources: the bit-field
    extraction is left open. *)
Variable Bits : Z -> Z -> Z -> Z.

(** The value name [Display] shows: the formatter's when there is one,
    else the enumeration's entry when there is one. *)
Definition value_name (f : Field) (val : Z) : string :=
  match Fmt f with
  | Some g => g val
  | None =>
      match Enums f with
      | Some e =>
          match e val with
          | Some s => s
          | None => EmptyString
          end
      | None => EmptyString
      end
  end.

(** [Display] returns display strings for a bit field; the receiver is
    updated in place, so its new content is returned with the strings. *)
Definition Display (f : Field) (val : Z) : list string * Field :=
  (* get the field *)
  let val := Bits val (Msb f) (Lsb f) in
  (* has the value changed? *)
  let changed :=
    if negb (val =? cacheVal f) && cacheValid f then " *"%string else EmptyString in
  let f' := {| Name := Name f; Msb := Msb f; Lsb := Lsb f; Descr := Descr f;
               Fmt := Fmt f; Enums := Enums f;
               cacheValid := true; cacheVal := val |} in
  (* field name *)
  let nameStr :=
    if Msb f =? Lsb f then ("  " ++ Name f ++ "[" ++ fmt_d (Lsb f) ++ "]")%string
    else ("  " ++ Name f ++ "[" ++ fmt_d (Msb f) ++ ":" ++ fmt_d (Lsb f) ++ "]")%string in
  (* value name *)
  let valName := value_name f val in
  (* value string *)
  let valStr :=
    if val <? 10 then (": " ++ fmt_d val ++ " " ++ valName ++ changed)%string
    else (": 0x" ++ fmt_x val ++ " " ++ valName ++ changed)%string in
  ([nameStr; valStr; EmptyString; Descr f], f').

(** The loop of [DisplayH]: [f.Fmt(x)] is called whether or not the
    field has a formatter, and calling a nil function panics. *)
Fixpoint DisplayH_loop (fs : list Field) (val : Z) (s : list string)
  : result (list string) :=
  match fs with
  | [] => Val s
  | f :: rest =>
      let x := Bits val (Msb f) (Lsb f) in
      match Fmt f with
      | None => Panic NilDereference
      | Some g => DisplayH_loop rest val (s ++ [(Name f ++ " " ++ g x)%string])
      end
  end.

(** [DisplayH] returns the horizontal display string for the bit fields
    of a uint value. *)
Definition DisplayH (fs : list Field) (val : Z) : result string :=
  match DisplayH_loop fs val [] with
  | Val s => Val (Join s " ")
  | Panic p => Panic p
  | OutOfFuel => OutOfFuel
  end.

End WithBits.

(** The key [Less] orders by. *)
Definition sort_key (f : Field) : Z * string := (Msb f, Name f).

(** A field as its declaration leaves it, before any [Display]: the two
    cache fields have their zero values. *)
Definition uncached (f : Field) : Field :=
  {| Name := Name f; Msb := Msb f; Lsb := Lsb f; Descr := Descr f;
     Fmt := Fmt f; Enums := Enums f; cacheValid := false; cacheVal := 0 |}.

End soc.


(* ===================================================================== *)
(** ** RISC-V instructions ([cpu/riscv/rv/ins.go]) *)

Module rv.

Definition opcodeLB : Z := 0x00000003.
Definition opcodeLH : Z := 0x00001003.
Definition opcodeLW : Z := 0x00002003.
Definition opcodeLD : Z := 0x00003003.
Definition opcodeSB : Z := 0x00000023.
Definition opcodeSH : Z := 0x00001023.
Definition opcodeSW : Z := 0x00002023.
Definition opcodeSD : Z := 0x00003023.
Definition opcodeADDI : Z := 0x00000013.
Definition opcodeEBREAK : Z := 0x00100073.
Definition opcodeCSRRW : Z := 0x00001073.
Definition opcodeCSRRS : Z := 0x00002073.

(** [x << n] on [uint]: the bits shifted beyond bit 63 are lost. *)
Definition shl (x n : Z) : Z := GoInt.uint (Z.shiftl x n).

(** [uint32(x)] keeps the low 32 bits. *)
Definition uint32 (x : Z) : Z := x mod 2 ^ 32.

Section WithUtil.

(** [util.Bits(x, msb, lsb)] and the register number [RegZero] are not
    among the sources; both are left open. *)
Variable Bits : Z -> Z -> Z -> Z.
Variable RegZero : Z.

(** [InsLD] returns "ld rd, ofs(rs1)". *)
Definition InsLD (rd ofs rs1 : Z) : Z :=
  uint32 (Z.lor (Z.lor (Z.lor (shl (Bits ofs 11 0) 20) (shl rs1 15)) (shl rd 7)) opcodeLD).

(** [InsLW] returns "lw rd, ofs(rs1)". *)
Definition InsLW (rd ofs rs1 : Z) : Z :=
  uint32 (Z.lor (Z.lor (Z.lor (shl (Bits ofs 11 0) 20) (shl rs1 15)) (shl rd 7)) opcodeLW).

(** [InsLH] returns "lh rd, ofs(rs1)". *)
Definition InsLH (rd ofs rs1 : Z) : Z :=
  uint32 (Z.lor (Z.lor (Z.lor (shl (Bits ofs 11 0) 20) (shl rs1 15)) (shl rd 7)) opcodeLH).

(** [InsLB] returns "lb rd, ofs(rs1)". *)
Definition InsLB (rd ofs rs1 : Z) : Z :=
  uint32 (Z.lor (Z.lor (Z.lor (shl (Bits ofs 11 0) 20) (shl rs1 15)) (shl rd 7)) opcodeLB).

(** [InsSD] returns "sd rs2, ofs(rs1)". *)
Definition InsSD (rs2 ofs rs1 : Z) : Z :=
  uint32 (Z.lor (Z.lor (Z.lor (Z.lor (shl (Bits ofs 11 5) 25) (shl rs2 20)) (shl rs1 15))
                   (shl (Bits ofs 4 0) 7)) opcodeSD).

(** [InsSW] returns "sw rs2, ofs(rs1)". *)
Definition InsSW (rs2 ofs rs1 : Z) : Z :=
  uint32 (Z.lor (Z.lor (Z.lor (Z.lor (shl (Bits ofs 11 5) 25) (shl rs2 20)) (shl rs1 15))
                   (shl (Bits ofs 4 0) 7)) opcodeSW).

(** [InsSH] returns "sh rs2, ofs(rs1)". *)
Definition InsSH (rs2 ofs rs1 : Z) : Z :=
  uint32 (Z.lor (Z.lor (Z.lor (Z.lor (shl (Bits ofs 11 5) 25) (shl rs2 20)) (shl rs1 15))
                   (shl (Bits ofs 4 0) 7)) opcodeSH).

(** [InsSB] returns "sb rs2, ofs(rs1)". *)
Definition InsSB (rs2 ofs rs1 : Z) : Z :=
  uint32 (Z.lor (Z.lor (Z.lor (Z.lor (shl (Bits ofs 11 5) 25) (shl rs2 20)) (shl rs1 15))
                   (shl (Bits ofs 4 0) 7)) opcodeSB).

(** [InsADDI] returns "addi rd, rs1, imm". *)
Definition InsADDI (rd rs1 imm : Z) : Z :=
  uint32 (Z.lor (Z.lor (Z.lor (shl (Bits imm 11 0) 20) (shl rs1 15)) (shl rd 7)) opcodeADDI).

(** [InsEBREAK] returns "ebreak". *)
Definition InsEBREAK : Z := uint32 opcodeEBREAK.

(** [InsCSRR] returns "csrr rd, csr", that is csrrs rd, csr, x0. *)
Definition InsCSRR (rd csr : Z) : Z :=
  uint32 (Z.lor (Z.lor (Z.lor (shl csr 20) (shl RegZero 15)) (shl rd 7)) opcodeCSRRS).

(** [InsCSRW] returns "csrw csr, rs1", that is csrrw x0, csr, rs1. *)
Definition InsCSRW (csr rs1 : Z) : Z :=
  uint32 (Z.lor (Z.lor (Z.lor (shl csr 20) (shl rs1 15)) (shl RegZero 7)) opcodeCSRRW).

End WithUtil.

(** Bits msb down to lsb of an instruction word, as the processor's
    decoder reads them. *)
Definition field (ins msb lsb : Z) : Z :=
  Z.land (Z.shiftr ins lsb) (Z.ones (msb - lsb + 1)).

(** The fields of the base instruction formats. *)
Definition opcode (ins : Z) : Z := field ins 6 0.
Definition rd_of (ins : Z) : Z := field ins 11 7.
Definition funct3 (ins : Z) : Z := field ins 14 12.
Definition rs1_of (ins : Z) : Z := field ins 19 15.
Definition rs2_of (ins : Z) : Z := field ins 24 20.
Definition imm_i (ins : Z) : Z := field ins 31 20.
Definition imm_s_hi (ins : Z) : Z := field ins 31 25.

(** What a decoder reads in a word of the I format: opcode, funct3, rd,
    rs1 and the 12-bit immediate. *)
Definition decode_i (ins : Z) : Z * Z * Z * Z * Z :=
  (opcode ins, funct3 ins, rd_of ins, rs1_of ins, imm_i ins).

(** What a decoder reads in a word of the S format: opcode, funct3, rs1,
    rs2 and the two parts of the immediate, bits 31:25 and 11:7. *)
Definition decode_s (ins : Z) : Z * Z * Z * Z * Z * Z :=
  (opcode ins, funct3 ins, rs1_of ins, rs2_of ins, imm_s_hi ins, rd_of ins).

(** The usual extraction of bits msb down to lsb, an instance of what
    [util.Bits] is left open for. *)
Definition bits_of (x msb lsb : Z) : Z :=
  Z.land (Z.shiftr x lsb) (Z.ones (msb - lsb + 1)).

End rv.

(* ===================================================================== *)
(** ** The gd32vf103 flash driver ([vendor/gigadevice/gd32vf103/flashdrv.go]) *)

Module gd32vf103.

(** The fields of [soc.Peripheral] the driver reads. *)
Record Peripheral : Type := {
  Name : string;
  Addr : Z;
  Size : Z;
}.

(** [mem.Region] is not among the sources: a region is taken to be what
    [mem.NewRegion] is given, with the name of a [flashMeta] (or nil) as
    its meta data. *)
Record Region : Type := NewRegion {
  r_name : string;
  r_addr : Z;
  r_size : Z;
  r_meta : option string;
}.

Definition ctlLK : Z := Z.shiftl 1 7.

Section Flash.

(** The state of the target behind the [soc.Driver]. *)
Context {St : Type}.

(** The methods [Rd], [Wr], [Set] and [Clr] of [soc.Peripheral] are not
    among the sources: what each does through a driver, with its Go
    results, is given with the driver. *)
Record Driver : Type := {
  Rd : Peripheral -> string -> St -> (Z * option error) * St;
  Wr : Peripheral -> string -> Z -> St -> option error * St;
  Set_ : Peripheral -> string -> Z -> St -> option error * St;
  Clr : Peripheral -> string -> Z -> St -> option error * St;
}.

(** [dev.GetPeripheral(name)] of [soc.Device], as the flash driver calls
    it: a peripheral (or nil) and an error. *)
Record Device : Type := {
  GetPeripheral : string -> option Peripheral * option error;
}.

(** An access to a register of the FMC peripheral. *)
Inductive access : Type :=
| ARd (reg : string)
| AWr (reg : string) (val : Z)
| ASet (reg : string) (bits : Z)
| AClr (reg : string) (bits : Z).

(** [FlashDriver] is a flash driver for the gd32vf103. *)
Record FlashDriver : Type := {
  drv : Driver;
  dev : Device;
  fmc : Peripheral;
  sectors : list Region;
}.

(** The target's state and the accesses made so far. *)
Definition World : Type := St * list access.

(** A statement that yields an error or nil. *)
Definition step : Type := World -> option error * World.

(** [err := a; if err != nil { return err }; b]. *)
Definition and_then (a b : step) : step :=
  fun w =>
    match a w with
    | (Some e, w') => (Some e, w')
    | (None, w') => b w'
    end.

Definition fmcRd (d : FlashDriver) (reg : string) (w : World)
  : (Z * option error) * World :=
  let '(r, st) := Rd (drv d) (fmc d) reg (fst w) in
  (r, (st, snd w ++ [ARd reg])).

Definition fmcWr (d : FlashDriver) (reg : string) (val : Z) : step :=
  fun w =>
    let '(e, st) := Wr (drv d) (fmc d) reg val (fst w) in
    (e, (st, snd w ++ [AWr reg val])).



(** [unlock] unlocks the flash. *)
Definition unlock (d : FlashDriver) : step :=
  fun w =>
    let '((ctl, err), w) := fmcRd d "CTL0" w in
    match err with
    | Some e => (Some e, w)
    | None =>
        if Z.land ctl ctlLK =? 0 then
          (* already unlocked *)
          (None, w)
        else
          (* write the unlock sequence, then clear any set CR bits *)
          and_then (fmcWr d "KEY0" 0x45670123)
            (and_then (fmcWr d "KEY0" 0xCDEF89AB)
               (fmcWr d "CTL0" 0)) w
    end.



(** [GetAddressSize] returns the address size in bits. *)
Definition GetAddressSize (d : FlashDriver) : Z := 32.

(** [LookupSymbol] returns an address and size for a symbol; the region
    of a peripheral that is nil cannot be built. *)
Definition LookupSymbol (d : FlashDriver) (name : string) : result (option Region) :=
  match GetPeripheral (dev d) name with
  | (_, Some _) => Val None
  | (Some p, None) => Val (Some (NewRegion name (Addr p) (Size p) None))
  | (None, None) => Panic NilDereference
  end.

End Flash.

Arguments Driver : clear implicits.
Arguments FlashDriver : clear implicits.
Arguments World : clear implicits.
Arguments step : clear implicits.

Section Sectors.

(** [util.KiB] is not among the sources; the constant is left open. *)
Variable KiB : Z.

Definition sectorSize : Z := GoInt.uint (1 * KiB).

(** The loop over the main flash,
    [for addr := uint(p.Addr); addr < p.Addr+p.Size; addr += sectorSize],
    entered with the current [addr], the page number [i] and the regions
    appended so far. *)
Fixpoint sector_loop (fuel : nat) (p : Peripheral) (addr i : Z) (r : list Region)
  : result (list Region) :=
  match fuel with
  | O => OutOfFuel
  | S fuel =>
      if addr <? GoInt.uint (Addr p + Size p) then
        sector_loop fuel p (GoInt.uint (addr + sectorSize)) (GoInt.add i 1)
          (r ++ [NewRegion (Name p) addr sectorSize (Some ("page " ++ fmt_d i)%string)])
      else Val r
  end.

(** The peripheral of a name, the error ignored: using a nil peripheral
    panics. *)
Definition peripheral (d : Device) (name : string) : result Peripheral :=
  match fst (GetPeripheral d name) with
  | Some p => Val p
  | None => Panic NilDereference
  end.

(** [flashSectors] returns a set of flash sectors for the device. *)
Definition flashSectors (fuel : nat) (d : Device) : result (list Region) :=
  (* main flash *)
  match peripheral d "flash" with
  | Val p =>
      match sector_loop fuel p (GoInt.uint (Addr p)) 0 [] with
      | Val r =>
          (* boot *)
          match peripheral d "boot" with
          | Val b =>
              let r := r ++ [NewRegion (Name b) (Addr b) (Size b) (Some "boot loader area"%string)] in
              (* option *)
              match peripheral d "option" with
              | Val o =>
                  Val (r ++ [NewRegion (Name o) (Addr o) (Size o) (Some "option bytes"%string)])
              | Panic x => Panic x
              | OutOfFuel => OutOfFuel
              end
          | Panic x => Panic x
          | OutOfFuel => OutOfFuel
          end
      | Panic x => Panic x
      | OutOfFuel => OutOfFuel
      end
  | Panic x => Panic x
  | OutOfFuel => OutOfFuel
  end.

(** The pages of a flash of [n] sectors from [base]: page k is the
    sector at [base + k * sectorSize]. *)
Definition pages (name : string) (base : Z) (n : nat) : list Region :=
  map (fun k => NewRegion name (base + Z.of_nat k * sectorSize) sectorSize
                  (Some ("page " ++ fmt_d (Z.of_nat k))%string))
    (seq 0 n).

End Sectors.

End gd32vf103.


(* ===================================================================== *)
(** ** A simulated flash controller *)

Module flash_stub.

Import gd32vf103.

Definition bus_error : error := Error "bus error".

(** A controller whose state is the value of CTL0: reads return it, a
    write to CTL0 replaces it, set and clear change its bits; a set of
    the bits picked out by [bad] fails. *)
Definition sim (bad : Z -> bool) : Driver Z :=
  {| Rd := fun _ _ st => ((st, None), st);
     Wr := fun _ reg v st => (None, if String.eqb reg "CTL0" then v else st);
     Set_ := fun _ _ b st =>
       if bad b then (Some bus_error, st) else (None, Z.lor st b);
     Clr := fun _ _ b st => (None, Z.ldiff st b) |}.

(** A device with 2.5 KiB of main flash, a boot area and option bytes. *)
Definition part : Device :=
  {| GetPeripheral := fun name =>
       if String.eqb name "flash" then
         (Some {| Name := "flash"; Addr := 0x08000000; Size := 2560 |}, None)
       else if String.eqb name "boot" then
         (Some {| Name := "boot"; Addr := 0x1fffb000; Size := 18432 |}, None)
       else if String.eqb name "option" then
         (Some {| Name := "option"; Addr := 0x1ffff800; Size := 16 |}, None)
       else if String.eqb name "FMC" then
         (Some {| Name := "FMC"; Addr := 0x40022000; Size := 1024 |}, None)
       else (None, Some (Error "no such peripheral")) |}.


Definition flashdrv (bad : Z -> bool) : FlashDriver Z :=
  {| drv := sim bad; dev := part;
     fmc := {| Name := "FMC"; Addr := 0x40022000; Size := 1024 |};
     sectors := [] |}.

End flash_stub.


(* ===================================================================== *)
(** ** Facts about Go integers and bit strings *)

Import jtag.

Section IntFacts.

Lemma wrap_small (z : Z) : GoInt.in_int z -> GoInt.wrap z = z.
Proof.
  unfold GoInt.in_int, GoInt.int_min, GoInt.int_max, GoInt.wrap. intros H.
  rewrite Z.mod_small; lia.
Qed.

Lemma wrap_sub_l (a b : Z) : GoInt.wrap (GoInt.wrap a - b) = GoInt.wrap (a - b).
Proof.
  unfold GoInt.wrap. f_equal.
  replace ((a + 2 ^ 63) mod 2 ^ 64 - 2 ^ 63 - b + 2 ^ 63)
    with ((a + 2 ^ 63) mod 2 ^ 64 - b) by lia.
  rewrite Zminus_mod_idemp_l. f_equal. lia.
Qed.

(** Two subtractions wrap like the exact difference, in either order. *)
Lemma sub_sub_wrap (n a b : Z) :
  GoInt.sub (GoInt.sub n a) b = GoInt.wrap (n - a - b).
Proof. unfold GoInt.sub. apply wrap_sub_l. Qed.

Lemma sub_sub_swap (n a b : Z) :
  GoInt.sub (GoInt.sub n a) b = GoInt.sub (GoInt.sub n b) a.
Proof. rewrite !sub_sub_wrap. f_equal. lia. Qed.

Lemma uint_small (z : Z) : 0 <= z < 2 ^ 64 -> GoInt.uint z = z.
Proof. intros H. unfold GoInt.uint. apply Z.mod_small. exact H. Qed.

Lemma uint_idem (z : Z) : GoInt.uint (GoInt.uint z) = GoInt.uint z.
Proof. unfold GoInt.uint. apply Z.mod_mod. lia. Qed.

Lemma land3_uint (z : Z) : Z.land (GoInt.uint z) 3 = Z.land z 3.
Proof.
  unfold GoInt.uint. apply Z.bits_inj'. intros n Hn.
  rewrite !Z.land_spec.
  destruct (Z.ltb_spec n 64) as [H|H].
  - rewrite Z.mod_pow2_bits_low by lia. reflexivity.
  - rewrite (Z.bits_above_log2 3 n) by (simpl; lia).
    rewrite !andb_false_r. reflexivity.
Qed.

Lemma len_nonneg {A} (l : list A) : 0 <= GoInt.len l.
Proof. unfold GoInt.len. lia. Qed.

Lemma len_app {A} (a b : list A) : GoInt.len (a ++ b) = GoInt.len a + GoInt.len b.
Proof. unfold GoInt.len. rewrite length_app. lia. Qed.

End IntFacts.

Section BitstrFacts.

Lemma len_Ones (n : Z) : 0 <= n -> GoInt.len (Ones n) = n.
Proof. intros H. unfold GoInt.len, Ones. rewrite repeat_length. lia. Qed.

Lemma len_Zeros (n : Z) : 0 <= n -> GoInt.len (Zeros n) = n.
Proof. intros H. unfold GoInt.len, Zeros. rewrite repeat_length. lia. Qed.

Lemma len_FromUint (x n : Z) : 0 <= n -> GoInt.len (FromUint x n) = n.
Proof.
  intros H. unfold GoInt.len, FromUint.
  rewrite length_map, length_rev, length_seq. lia.
Qed.

(** Padding as the methods build it is concatenation. *)
Lemma padded_eq (nb na : Z) (wr : BitString) :
  Tail1 (Tail (Ones nb) wr) na = Ones nb ++ wr ++ Ones na.
Proof. unfold Tail1, Tail. rewrite <- app_assoc. reflexivity. Qed.

Lemma DropHead_app (h r : BitString) : DropHead (h ++ r) (GoInt.len h) = Val r.
Proof.
  unfold DropHead. rewrite len_app.
  destruct (Z.ltb_spec (GoInt.len h + GoInt.len r) (GoInt.len h)) as [H|H].
  - pose proof (len_nonneg r). lia.
  - unfold GoInt.len. rewrite Nat2Z.id, skipn_app, skipn_all, Nat.sub_diag.
    reflexivity.
Qed.

Lemma DropTail_app (r t : BitString) : DropTail (r ++ t) (GoInt.len t) = Val r.
Proof.
  unfold DropTail. rewrite len_app.
  destruct (Z.ltb_spec (GoInt.len r + GoInt.len t) (GoInt.len t)) as [H|H].
  - pose proof (len_nonneg r). lia.
  - unfold GoInt.len. rewrite Nat2Z.id, length_app.
    replace (List.length r + List.length t - List.length t)%nat
      with (List.length r) by lia.
    rewrite firstn_app, firstn_all, Nat.sub_diag. simpl.
    rewrite app_nil_r. reflexivity.
Qed.

(** The padded reply [h ++ r ++ t] stripped of its pads. *)
Lemma strip_pads (h r t : BitString) (nb na : Z) :
  GoInt.len h = nb -> GoInt.len t = na ->
  DropHead (h ++ r ++ t) nb = Val (r ++ t) /\ DropTail (r ++ t) na = Val r.
Proof.
  intros <- <-. split; [apply DropHead_app | apply DropTail_app].
Qed.

(** A sequence no shorter than its pads splits around them. *)
Lemma pads_split (tdo : BitString) (nb na : Z) :
  0 <= nb -> 0 <= na -> nb + na <= GoInt.len tdo ->
  exists h r t, tdo = h ++ r ++ t /\ GoInt.len h = nb /\ GoInt.len t = na.
Proof.
  intros Hb Ha Hl. unfold GoInt.len in *.
  exists (firstn (Z.to_nat nb) tdo).
  exists (firstn (List.length tdo - Z.to_nat nb - Z.to_nat na)
            (skipn (Z.to_nat nb) tdo)).
  exists (skipn (List.length tdo - Z.to_nat nb - Z.to_nat na)
            (skipn (Z.to_nat nb) tdo)).
  rewrite !firstn_skipn. split; [reflexivity|].
  rewrite length_firstn, !length_skipn. lia.
Qed.

Lemma Split_one (r : BitString) (n : Z) :
  GoInt.len r = n -> Split r [n] = Val [GoInt.uint (to_Z r)].
Proof.
  intros <-. unfold Split. simpl. rewrite Z.add_0_r, Z.eqb_refl.
  unfold GoInt.len. rewrite Nat2Z.id, firstn_all. reflexivity.
Qed.

End BitstrFacts.

(* ===================================================================== *)
(** ** IR and DR scans of a device *)

Section Scans.

Context {St : Type}.
Implicit Types (m : Mem St) (bits wr : BitString).

(** What one IR scan of the driver does to the store. *)
Lemma drvScanIR_eq m tdi needTdo :
  drvScanIR tdi needTdo m =
    (Val (fst (ScanIR (drv (mdev m)) tdi needTdo (mdrv m))),
     {| mdev := mdev m;
        mdrv := snd (ScanIR (drv (mdev m)) tdi needTdo (mdrv m));
        mlog := mlog m ++ [EvScanIR tdi needTdo] |}).
Proof.
  unfold drvScanIR. destruct (ScanIR _ _ _ _) as [r st]. reflexivity.
Qed.

Lemma drvScanDR_eq m tdi idle needTdo :
  drvScanDR tdi idle needTdo m =
    (Val (fst (ScanDR (drv (mdev m)) tdi idle needTdo (mdrv m))),
     {| mdev := mdev m;
        mdrv := snd (ScanDR (drv (mdev m)) tdi idle needTdo (mdrv m));
        mlog := mlog m ++ [EvScanDR tdi idle needTdo] |}).
Proof.
  unfold drvScanDR. destruct (ScanDR _ _ _ _ _) as [r st]. reflexivity.
Qed.

Lemma chainDrLength_eq m :
  chainDrLength m =
    (Val (fst (drLength (chain (mdev m)) (mdrv m))),
     {| mdev := mdev m;
        mdrv := snd (drLength (chain (mdev m)) (mdrv m));
        mlog := mlog m ++ [EvDRLength] |}).
Proof.
  unfold chainDrLength. destruct (drLength _ _) as [r st]. reflexivity.
Qed.

Lemma WrIR_eq m wr :
  let tdi := Ones (irlenBefore (mdev m)) ++ wr ++ Ones (irlenAfter (mdev m)) in
  let r := ScanIR (drv (mdev m)) tdi false (mdrv m) in
  WrIR wr m =
    (Val (snd (fst r)),
     {| mdev := mdev m; mdrv := snd r; mlog := mlog m ++ [EvScanIR tdi false] |}).
Proof.
  cbv zeta. unfold WrIR, bind, this, ret.
  rewrite padded_eq, drvScanIR_eq. reflexivity.
Qed.

Lemma WrDR_eq m wr idle :
  let tdi := Ones (devsBefore (mdev m)) ++ wr ++ Ones (devsAfter (mdev m)) in
  let r := ScanDR (drv (mdev m)) tdi idle false (mdrv m) in
  WrDR wr idle m =
    (Val (snd (fst r)),
     {| mdev := mdev m; mdrv := snd r; mlog := mlog m ++ [EvScanDR tdi idle false] |}).
Proof.
  cbv zeta. unfold WrDR, bind, this, ret.
  rewrite padded_eq, drvScanDR_eq. reflexivity.
Qed.

(** [RdWrIR] in one piece: the scan, then the strip of a reply without
    error. *)
Lemma RdWrIR_eq m wr :
  let dev := mdev m in
  let tdi := Ones (irlenBefore dev) ++ wr ++ Ones (irlenAfter dev) in
  let r := ScanIR (drv dev) tdi true (mdrv m) in
  let m' := {| mdev := dev; mdrv := snd r; mlog := mlog m ++ [EvScanIR tdi true] |} in
  RdWrIR wr m =
    match snd (fst r) with
    | Some err => (Val (None, Some err), m')
    | None =>
        match fst (fst r) with
        | None => (Panic NilDereference, m')
        | Some tdo =>
            match DropHead tdo (irlenBefore dev) with
            | Val t1 =>
                match DropTail t1 (irlenAfter dev) with
                | Val t2 => (Val (Some t2, None), m')
                | Panic p => (Panic p, m')
                | OutOfFuel => (OutOfFuel, m')
                end
            | Panic p => (Panic p, m')
            | OutOfFuel => (OutOfFuel, m')
            end
        end
    end.
Proof.
  cbv zeta. unfold RdWrIR, deref, bind, this, ret, lift.
  rewrite padded_eq, drvScanIR_eq. cbn [fst snd mdev].
  destruct (ScanIR _ _ _ _) as [[tdo [e|]] st]; cbn [fst snd]; [reflexivity|].
  destruct tdo as [tdo|]; [|reflexivity]. cbn [mdev].
  destruct (DropHead _ _) as [t1| |]; [|reflexivity|reflexivity].
  destruct (DropTail _ _) as [t2| |]; reflexivity.
Qed.

Lemma RdWrDR_eq m wr idle :
  let dev := mdev m in
  let tdi := Ones (devsBefore dev) ++ wr ++ Ones (devsAfter dev) in
  let r := ScanDR (drv dev) tdi idle true (mdrv m) in
  let m' := {| mdev := dev; mdrv := snd r; mlog := mlog m ++ [EvScanDR tdi idle true] |} in
  RdWrDR wr idle m =
    match snd (fst r) with
    | Some err => (Val (None, Some err), m')
    | None =>
        match fst (fst r) with
        | None => (Panic NilDereference, m')
        | Some tdo =>
            match DropHead tdo (devsBefore dev) with
            | Val t1 =>
                match DropTail t1 (devsAfter dev) with
                | Val t2 => (Val (Some t2, None), m')
                | Panic p => (Panic p, m')
                | OutOfFuel => (OutOfFuel, m')
                end
            | Panic p => (Panic p, m')
            | OutOfFuel => (OutOfFuel, m')
            end
        end
    end.
Proof.
  cbv zeta. unfold RdWrDR, deref, bind, this, ret, lift.
  rewrite padded_eq, drvScanDR_eq. cbn [fst snd mdev].
  destruct (ScanDR _ _ _ _ _) as [[tdo [e|]] st]; cbn [fst snd]; [reflexivity|].
  destruct tdo as [tdo|]; [|reflexivity]. cbn [mdev].
  destruct (DropHead _ _) as [t1| |]; [|reflexivity|reflexivity].
  destruct (DropTail _ _) as [t2| |]; reflexivity.
Qed.

(** Whatever the driver answers, [RdWrIR] makes exactly one capturing IR
    scan and leaves the device alone. *)
Lemma RdWrIR_mem m wr :
  let dev := mdev m in
  let tdi := Ones (irlenBefore dev) ++ wr ++ Ones (irlenAfter dev) in
  snd (RdWrIR wr m) =
    {| mdev := dev; mdrv := snd (ScanIR (drv dev) tdi true (mdrv m));
       mlog := mlog m ++ [EvScanIR tdi true] |}.
Proof.
  cbv zeta. rewrite RdWrIR_eq.
  destruct (snd (fst _)); [reflexivity|].
  destruct (fst (fst _)); [|reflexivity].
  destruct (DropHead _ _); [|reflexivity|reflexivity].
  destruct (DropTail _ _); reflexivity.
Qed.

Lemma RdWrDR_mem m wr idle :
  let dev := mdev m in
  let tdi := Ones (devsBefore dev) ++ wr ++ Ones (devsAfter dev) in
  snd (RdWrDR wr idle m) =
    {| mdev := dev; mdrv := snd (ScanDR (drv dev) tdi idle true (mdrv m));
       mlog := mlog m ++ [EvScanDR tdi idle true] |}.
Proof.
  cbv zeta. rewrite RdWrDR_eq.
  destruct (snd (fst _)); [reflexivity|].
  destruct (fst (fst _)); [|reflexivity].
  destruct (DropHead _ _); [|reflexivity|reflexivity].
  destruct (DropTail _ _); reflexivity.
Qed.

(** A capture [h ++ r ++ t] whose pads have the device's counts is
    stripped to [r]. *)
Lemma RdWrIR_strip m wr h r t st' :
  let dev := mdev m in
  let tdi := Ones (irlenBefore dev) ++ wr ++ Ones (irlenAfter dev) in
  GoInt.len h = irlenBefore dev -> GoInt.len t = irlenAfter dev ->
  ScanIR (drv dev) tdi true (mdrv m) = ((Some (h ++ r ++ t), None), st') ->
  RdWrIR wr m =
    (Val (Some r, None),
     {| mdev := dev; mdrv := st'; mlog := mlog m ++ [EvScanIR tdi true] |}).
Proof.
  cbv zeta. intros Hh Ht Hscan. rewrite RdWrIR_eq. cbv zeta.
  rewrite Hscan. cbn [fst snd].
  destruct (strip_pads h r t _ _ Hh Ht) as [-> ->]. reflexivity.
Qed.

Lemma RdWrDR_strip m wr idle h r t st' :
  let dev := mdev m in
  let tdi := Ones (devsBefore dev) ++ wr ++ Ones (devsAfter dev) in
  GoInt.len h = devsBefore dev -> GoInt.len t = devsAfter dev ->
  ScanDR (drv dev) tdi idle true (mdrv m) = ((Some (h ++ r ++ t), None), st') ->
  RdWrDR wr idle m =
    (Val (Some r, None),
     {| mdev := dev; mdrv := st'; mlog := mlog m ++ [EvScanDR tdi idle true] |}).
Proof.
  cbv zeta. intros Hh Ht Hscan. rewrite RdWrDR_eq. cbv zeta.
  rewrite Hscan. cbn [fst snd].
  destruct (strip_pads h r t _ _ Hh Ht) as [-> ->]. reflexivity.
Qed.

End Scans.

Import stub.

Section ScanClaims.

(** C1.  [WrIR] makes exactly one IR scan, of the chain-wide sequence
    [Ones irlenBefore ++ bits ++ Ones irlenAfter] with no capture
    requested, and returns the driver's error.  On the chain of two
    devices with IR lengths 5 and 4, device 0 has 0 IR bits before and 4
    after, device 1 has 5 before and 0 after, and writing [1010] to
    device 1 scans the nine bits [11111 1010]. *)
Theorem C1_WrIR_scan :
  (forall (St : Type) (m : Mem St) (bits : BitString),
      let dev := mdev m in
      let tdi := Ones (irlenBefore dev) ++ bits ++ Ones (irlenAfter dev) in
      let r := ScanIR (drv dev) tdi false (mdrv m) in
      WrIR bits m =
        (Val (snd (fst r)),
         {| mdev := dev; mdrv := snd r;
            mlog := mlog m ++ [EvScanIR tdi false] |}))
  /\ (let ch := chain_of echo two_taps (fun _ => (2, None)) in
      exists d0 d1,
        NewDevice ch 0 = Val d0 /\ NewDevice ch 1 = Val d1
        /\ (irlen d0, irlenBefore d0, irlenAfter d0) = (5, 0, 4)
        /\ (irlen d1, irlenBefore d1, irlenAfter d1) = (4, 5, 0)
        /\ observe (WrIR (FromUint 10 4) (start d1 tt)) =
             (Val None,
              [EvScanIR [true; true; true; true; true; true; false; true; false]
                 false])).
Proof.
  split.
  - intros St m bits. apply WrIR_eq.
  - cbv zeta. eexists. eexists.
    split; [reflexivity|]. split; [reflexivity|].
    split; [reflexivity|]. split; reflexivity.
Qed.

(** C2.  [WrDR] and [RdWrDR] each make exactly one DR scan, of
    [Ones devsBefore ++ bits ++ Ones devsAfter] with the caller's idle
    count ([WrDR] without capture, [RdWrDR] with), and [RdWrDR] returns
    the capture without its first devsBefore and last devsAfter bits. *)
Theorem C2_DR_scans (St : Type) (m : Mem St) (bits : BitString) (idle : Z) :
  let dev := mdev m in
  let tdi := Ones (devsBefore dev) ++ bits ++ Ones (devsAfter dev) in
  (let r := ScanDR (drv dev) tdi idle false (mdrv m) in
   WrDR bits idle m =
     (Val (snd (fst r)),
      {| mdev := dev; mdrv := snd r;
         mlog := mlog m ++ [EvScanDR tdi idle false] |}))
  /\ snd (RdWrDR bits idle m) =
       {| mdev := dev; mdrv := snd (ScanDR (drv dev) tdi idle true (mdrv m));
          mlog := mlog m ++ [EvScanDR tdi idle true] |}
  /\ (forall (h r t : BitString) (st' : St),
         GoInt.len h = devsBefore dev -> GoInt.len t = devsAfter dev ->
         ScanDR (drv dev) tdi idle true (mdrv m) = ((Some (h ++ r ++ t), None), st') ->
         fst (RdWrDR bits idle m) = Val (Some r, None)).
Proof.
  cbv zeta. split; [apply WrDR_eq|]. split; [apply RdWrDR_mem|].
  intros h r t st' Hh Ht Hscan.
  rewrite (RdWrDR_strip m bits idle h r t st' Hh Ht Hscan). reflexivity.
Qed.

Lemma C2_DR_scans_witness :
  let dev := device_of (chain_of echo two_taps (fun _ => (2, None))) 5 0 4 0 1 in
  fst (RdWrDR [true; false; true] 7 (start dev tt)) = Val (Some [true; false; true], None).
Proof.
  cbv zeta.
  apply (proj2 (proj2 (C2_DR_scans unit _ [true; false; true] 7))
           [] [true; false; true] [true] tt); reflexivity.
Defined.

(** C3.  For bits of length irlen, [RdWrIR] makes exactly one IR scan, of
    the sequence [WrIR] sends but with capture requested, and returns the
    capture without its first irlenBefore and last irlenAfter bits; of a
    capture as long as the sequence sent, irlen bits remain.  When the
    driver returns the sequence it was given, the result is the bits
    written. *)
Theorem C3_RdWrIR_strip (St : Type) (m : Mem St) (bits : BitString) :
  let dev := mdev m in
  let tdi := Ones (irlenBefore dev) ++ bits ++ Ones (irlenAfter dev) in
  GoInt.len bits = irlen dev ->
  snd (RdWrIR bits m) =
    {| mdev := dev; mdrv := snd (ScanIR (drv dev) tdi true (mdrv m));
       mlog := mlog m ++ [EvScanIR tdi true] |}
  /\ (forall (h r t : BitString) (st' : St),
         GoInt.len h = irlenBefore dev -> GoInt.len t = irlenAfter dev ->
         ScanIR (drv dev) tdi true (mdrv m) = ((Some (h ++ r ++ t), None), st') ->
         fst (RdWrIR bits m) = Val (Some r, None)
         /\ (GoInt.len (h ++ r ++ t) = GoInt.len tdi -> GoInt.len r = irlen dev))
  /\ (forall st' : St,
         ScanIR (drv dev) tdi true (mdrv m) = ((Some tdi, None), st') ->
         fst (RdWrIR bits m) = Val (Some bits, None)).
Proof.
  cbv zeta. intros Hlen. split; [apply RdWrIR_mem|]. split.
  - intros h r t st' Hh Ht Hscan. split.
    + rewrite (RdWrIR_strip m bits h r t st' Hh Ht Hscan). reflexivity.
    + rewrite !len_app. unfold GoInt.len in *. unfold Ones in *.
      rewrite !repeat_length. lia.
  - intros st' Hscan.
    assert (Hb : GoInt.len (Ones (irlenBefore (mdev m)))
                 = Z.of_nat (Z.to_nat (irlenBefore (mdev m)))).
    { unfold GoInt.len, Ones. rewrite repeat_length. reflexivity. }
    rewrite RdWrIR_eq. cbv zeta. rewrite Hscan. cbn [fst snd].
    unfold DropHead, DropTail.
    rewrite !len_app.
    pose proof (len_nonneg bits). pose proof (len_nonneg (Ones (irlenAfter (mdev m)))).
    destruct (Z.ltb_spec (GoInt.len (Ones (irlenBefore (mdev m)))
                          + (GoInt.len bits + GoInt.len (Ones (irlenAfter (mdev m)))))
                (irlenBefore (mdev m))) as [Hlt|_]; [lia|].
    assert (Hskip : skipn (Z.to_nat (irlenBefore (mdev m)))
                      (Ones (irlenBefore (mdev m)) ++ bits ++ Ones (irlenAfter (mdev m)))
                    = bits ++ Ones (irlenAfter (mdev m))).
    { rewrite skipn_app. unfold Ones at 1 2. rewrite repeat_length.
      rewrite skipn_all2 by (rewrite repeat_length; lia).
      rewrite Nat.sub_diag. reflexivity. }
    rewrite Hskip, len_app.
    assert (Ha : GoInt.len (Ones (irlenAfter (mdev m)))
                 = Z.of_nat (Z.to_nat (irlenAfter (mdev m)))).
    { unfold GoInt.len, Ones. rewrite repeat_length. reflexivity. }
    destruct (Z.ltb_spec (GoInt.len bits + GoInt.len (Ones (irlenAfter (mdev m))))
                (irlenAfter (mdev m))) as [Hlt|_]; [lia|].
    rewrite length_app. unfold Ones at 1. rewrite repeat_length.
    replace (List.length bits + Z.to_nat (irlenAfter (mdev m))
             - Z.to_nat (irlenAfter (mdev m)))%nat with (List.length bits) by lia.
    rewrite firstn_app, firstn_all, Nat.sub_diag. simpl. rewrite app_nil_r.
    reflexivity.
Qed.

Lemma C3_RdWrIR_strip_witness :
  let dev := device_of (chain_of echo two_taps (fun _ => (2, None))) 4 5 0 1 0 in
  GoInt.len (FromUint 10 4) = irlen dev
  /\ fst (RdWrIR (FromUint 10 4) (start dev tt)) = Val (Some (FromUint 10 4), None).
Proof.
  cbv zeta. split; [reflexivity|].
  apply (proj2 (proj2 (C3_RdWrIR_strip unit
           (start (device_of (chain_of echo two_taps (fun _ => (2, None))) 4 5 0 1 0) tt)
           (FromUint 10 4) eq_refl)) tt).
  reflexivity.
Defined.

(** The round trip through the IR latch: what [WrIR] loaded is what the
    next [RdWrIR] captures and, stripped, returns. *)
Lemma WrIR_RdWrIR_latch (dr : BitString) (m : Mem BitString) (bits wr : BitString) :
  drv (mdev m) = latch (fun _ => false) dr ->
  0 <= irlenBefore (mdev m) -> 0 <= irlenAfter (mdev m) ->
  fst (RdWrIR wr (snd (WrIR bits m))) = Val (Some bits, None).
Proof.
  intros Hdrv Hb Ha. rewrite WrIR_eq. cbv zeta. cbn [snd].
  erewrite (RdWrIR_strip _ wr (Ones (irlenBefore (mdev m))) bits
              (Ones (irlenAfter (mdev m)))).
  - reflexivity.
  - cbn [mdev]. apply len_Ones. exact Hb.
  - cbn [mdev]. apply len_Ones. exact Ha.
  - cbn [mdev mdrv]. rewrite Hdrv. cbn. reflexivity.
Qed.

End ScanClaims.

(* ===================================================================== *)
(** ** DR length, IR capture test and construction *)

Section Lengths.

Context {St : Type}.
Implicit Types (m : Mem St).

Lemma GetDRLength_eq m :
  let dev := mdev m in
  let r := drLength (chain dev) (mdrv m) in
  let m' := {| mdev := dev; mdrv := snd r; mlog := mlog m ++ [EvDRLength] |} in
  GetDRLength m =
    match snd (fst r) with
    | Some err => (Val (0, Some err), m')
    | None =>
        (Val (GoInt.sub (GoInt.sub (fst (fst r)) (devsAfter dev)) (devsBefore dev),
              None), m')
    end.
Proof.
  cbv zeta. unfold GetDRLength, bind, this, ret.
  rewrite chainDrLength_eq. cbn [fst snd mdev].
  destruct (drLength _ _) as [[n [e|]] st]; reflexivity.
Qed.

(** After the scan, [testIRCapture] only computes. *)
Lemma testIRCapture_mem m :
  snd (testIRCapture m) = snd (RdWrIR (Ones (irlen (mdev m))) m).
Proof.
  unfold testIRCapture, deref, at0, bind, this, ret, lift. cbv beta iota.
  destruct (RdWrIR _ m) as [[[rd [e|]]|p|] m1]; cbn [fst snd]; try reflexivity.
  destruct rd as [rd|]; [|reflexivity].
  destruct (Split _ _) as [[|v vs]| |]; reflexivity.
Qed.

End Lengths.

Section LengthClaims.

(** C6.  [GetDRLength] probes the chain's DR length once.  When the probe
    succeeds with n, it returns n minus devsBefore minus devsAfter in
    [int] arithmetic, which is the exact difference whenever that is an
    [int]; when the probe fails, it returns 0 and the probe's error. *)
Theorem C6_GetDRLength (St : Type) (m : Mem St) :
  let dev := mdev m in
  let r := drLength (chain dev) (mdrv m) in
  mlog (snd (GetDRLength m)) = mlog m ++ [EvDRLength]
  /\ (forall n : Z,
         fst r = (n, None) ->
         fst (GetDRLength m)
           = Val (GoInt.sub (GoInt.sub n (devsBefore dev)) (devsAfter dev), None)
         /\ (GoInt.in_int (n - devsBefore dev - devsAfter dev) ->
             fst (GetDRLength m) = Val (n - devsBefore dev - devsAfter dev, None)))
  /\ (forall (n : Z) (e : error),
         fst r = (n, Some e) -> fst (GetDRLength m) = Val (0, Some e)).
Proof.
  cbv zeta. rewrite GetDRLength_eq. cbv zeta. split; [|split].
  - destruct (snd (fst _)); reflexivity.
  - intros n Hr. rewrite Hr. cbn [fst snd]. split.
    + rewrite sub_sub_swap. reflexivity.
    + intros Hin. rewrite sub_sub_wrap.
      replace (n - devsAfter (mdev m) - devsBefore (mdev m))
        with (n - devsBefore (mdev m) - devsAfter (mdev m)) by lia.
      rewrite wrap_small by exact Hin. reflexivity.
  - intros n e Hr. rewrite Hr. reflexivity.
Qed.

Lemma C6_GetDRLength_witness :
  let dev := device_of (chain_of echo two_taps (fun _ => (33, None))) 5 0 4 0 1 in
  fst (GetDRLength (start dev tt)) = Val (32, None)
  /\ fst (GetDRLength
            (start (device_of (chain_of echo two_taps (fun _ => (7, Some transport)))
                      5 0 4 0 1) tt))
     = Val (0, Some transport).
Proof.
  cbv zeta. split.
  - apply (proj2 (proj1 (proj2 (C6_GetDRLength unit
             (start (device_of (chain_of echo two_taps (fun _ => (33, None))) 5 0 4 0 1) tt)))
             33 eq_refl)).
    unfold GoInt.in_int, GoInt.int_min, GoInt.int_max. simpl. lia.
  - apply (proj2 (proj2 (C6_GetDRLength unit
             (start (device_of (chain_of echo two_taps (fun _ => (7, Some transport)))
                       5 0 4 0 1) tt))) 7 transport eq_refl).
Defined.

(** C7.  On a chain of N devices and for 0 <= idx < N, [NewDevice]
    returns a device with devsBefore = idx and devsAfter = N - idx - 1,
    so that devsBefore + 1 + devsAfter = N.  (N is the length of a Go
    slice, hence an [int].) *)
Theorem C7_NewDevice_counts (St : Type) (ch : Chain St) (i : Z) :
  let N := GoInt.len (info ch) in
  N <= GoInt.int_max ->
  0 <= i < N ->
  exists dev : Device St,
    NewDevice ch i = Val dev
    /\ devsBefore dev = i
    /\ devsAfter dev = N - i - 1
    /\ devsBefore dev + 1 + devsAfter dev = N.
Proof.
  cbv zeta. intros HN Hi. unfold NewDevice, index.
  destruct (Z.ltb_spec i 0) as [?|_]; [lia|].
  destruct (Z.leb_spec (GoInt.len (info ch)) i) as [?|_]; [lia|].
  cbn [orb].
  destruct (nth_error (info ch) (Z.to_nat i)) as [d|] eqn:Hnth.
  - eexists. split; [reflexivity|]. cbn [devsBefore devsAfter].
    rewrite sub_sub_wrap, wrap_small.
    + repeat split; lia.
    + unfold GoInt.in_int, GoInt.int_min, GoInt.int_max in *. lia.
  - apply nth_error_None in Hnth. unfold GoInt.len in Hi. lia.
Qed.

Lemma C7_NewDevice_counts_witness :
  exists dev : Device unit,
    NewDevice (chain_of echo two_taps (fun _ => (2, None))) 1 = Val dev
    /\ devsBefore dev = 1
    /\ devsAfter dev = GoInt.len two_taps - 1 - 1
    /\ devsBefore dev + 1 + devsAfter dev = GoInt.len two_taps.
Proof.
  apply (C7_NewDevice_counts unit (chain_of echo two_taps (fun _ => (2, None))) 1).
  - vm_compute. discriminate.
  - split; vm_compute; [discriminate | reflexivity].
Defined.

(** C9.  [testIRCapture] makes one IR scan, of irlen one-bits padded for
    the chain, with capture requested.  When the scan succeeds, with the
    capture [h ++ r ++ t] whose middle [r] is this device's irlen bits,
    it returns whether [r] as a number has 01 as its lowest two bits;
    when the scan fails it returns false and the error. *)
Theorem C9_testIRCapture (St : Type) (m : Mem St) :
  let dev := mdev m in
  let tdi := Ones (irlenBefore dev) ++ Ones (irlen dev) ++ Ones (irlenAfter dev) in
  mlog (snd (testIRCapture m)) = mlog m ++ [EvScanIR tdi true]
  /\ (forall (h r t : BitString) (st' : St),
         GoInt.len h = irlenBefore dev -> GoInt.len r = irlen dev ->
         GoInt.len t = irlenAfter dev ->
         ScanIR (drv dev) tdi true (mdrv m) = ((Some (h ++ r ++ t), None), st') ->
         fst (testIRCapture m) = Val (Z.land (to_Z r) 3 =? 1, None))
  /\ (forall (x : option BitString) (e : error) (st' : St),
         ScanIR (drv dev) tdi true (mdrv m) = ((x, Some e), st') ->
         fst (testIRCapture m) = Val (false, Some e)).
Proof.
  cbv zeta. split; [|split].
  - rewrite testIRCapture_mem, RdWrIR_mem. reflexivity.
  - intros h r t st' Hh Hr Ht Hscan.
    unfold testIRCapture, deref, at0, bind, this, ret, lift. cbv beta iota.
    rewrite (RdWrIR_strip m _ h r t st' Hh Ht Hscan). cbn [fst snd mdev].
    rewrite (Split_one r _ Hr), land3_uint. reflexivity.
  - intros x e st' Hscan.
    unfold testIRCapture, bind, this, ret. cbv beta iota.
    rewrite RdWrIR_eq. cbv zeta. rewrite Hscan. reflexivity.
Qed.

Lemma C9_testIRCapture_witness :
  let dev := device_of (chain_of (latch (fun _ => false) []) two_taps (fun _ => (2, None)))
               4 5 0 1 0 in
  fst (testIRCapture (start dev [true; true; true; true; true; false; true; false; true]))
    = Val (true, None)
  /\ fst (testIRCapture
            (start (device_of (chain_of broken two_taps (fun _ => (2, None))) 4 5 0 1 0) tt))
     = Val (false, Some transport).
Proof.
  cbv zeta. split.
  - apply (proj1 (proj2 (C9_testIRCapture (list bool)
             (start (device_of (chain_of (latch (fun _ => false) []) two_taps
                                  (fun _ => (2, None))) 4 5 0 1 0)
                [true; true; true; true; true; false; true; false; true])))
             [true; true; true; true; true] [false; true; false; true] []
             [true; true; true; true; true; true; true; true; true]);
      reflexivity.
  - apply (proj2 (proj2 (C9_testIRCapture unit
             (start (device_of (chain_of broken two_taps (fun _ => (2, None))) 4 5 0 1 0) tt)))
             None transport tt).
    reflexivity.
Defined.

End LengthClaims.

(* ===================================================================== *)
(** ** CheckDR *)

Section CheckDRFacts.

Context {St : Type}.
Implicit Types (m : Mem St).

Lemma log_two {A} (l : list A) (a b : A) : (l ++ [a]) ++ [b] = l ++ [a; b].
Proof. rewrite <- app_assoc. reflexivity. Qed.

Lemma log_three {A} (l : list A) (a b c : A) :
  ((l ++ [a]) ++ [b]) ++ [c] = l ++ [a; b; c].
Proof. rewrite <- !app_assoc. reflexivity. Qed.

(** A failed IR write ends [CheckDR] with the pair [(0, nil)]. *)
Lemma CheckDR_write_error m ir drlen x e st1 :
  let dev := mdev m in
  let tdi := Ones (irlenBefore dev) ++ FromUint ir (irlen dev) ++ Ones (irlenAfter dev) in
  ScanIR (drv dev) tdi false (mdrv m) = ((x, Some e), st1) ->
  CheckDR ir drlen m =
    (Val (0, None),
     {| mdev := dev; mdrv := st1; mlog := mlog m ++ [EvScanIR tdi false] |}).
Proof.
  cbv zeta. intros Hscan.
  unfold CheckDR, bind, this, ret. cbv beta iota.
  rewrite WrIR_eq. cbv zeta. rewrite Hscan. reflexivity.
Qed.

(** A failed DR-length probe ends [CheckDR] with the pair [(0, nil)]. *)
Lemma CheckDR_probe_error m ir drlen x n0 e st1 st2 :
  let dev := mdev m in
  let tdi := Ones (irlenBefore dev) ++ FromUint ir (irlen dev) ++ Ones (irlenAfter dev) in
  ScanIR (drv dev) tdi false (mdrv m) = ((x, None), st1) ->
  drLength (chain dev) st1 = ((n0, Some e), st2) ->
  CheckDR ir drlen m =
    (Val (0, None),
     {| mdev := dev; mdrv := st2;
        mlog := mlog m ++ [EvScanIR tdi false; EvDRLength] |}).
Proof.
  cbv zeta. intros Hscan Hprobe.
  unfold CheckDR, bind, this, ret. cbv beta iota.
  rewrite WrIR_eq. cbv zeta. rewrite Hscan. cbn [fst snd].
  rewrite GetDRLength_eq. cbv zeta. cbn [mdev mdrv mlog].
  rewrite Hprobe. cbn [fst snd]. rewrite log_two. reflexivity.
Qed.

(** The path past the two checks: a wrong length. *)
Lemma CheckDR_mismatch m ir drlen x n0 st1 st2 :
  let dev := mdev m in
  let tdi := Ones (irlenBefore dev) ++ FromUint ir (irlen dev) ++ Ones (irlenAfter dev) in
  let n := GoInt.sub (GoInt.sub n0 (devsAfter dev)) (devsBefore dev) in
  ScanIR (drv dev) tdi false (mdrv m) = ((x, None), st1) ->
  drLength (chain dev) st1 = ((n0, None), st2) ->
  n <> drlen ->
  CheckDR ir drlen m =
    (Val (0, Some (drlen_mismatch ir n drlen)),
     {| mdev := dev; mdrv := st2;
        mlog := mlog m ++ [EvScanIR tdi false; EvDRLength] |}).
Proof.
  cbv zeta. intros Hscan Hprobe Hne.
  unfold CheckDR, bind, this, ret. cbv beta iota.
  rewrite WrIR_eq. cbv zeta. rewrite Hscan. cbn [fst snd].
  rewrite GetDRLength_eq. cbv zeta. cbn [mdev mdrv mlog].
  rewrite Hprobe. cbn [fst snd].
  destruct (Z.eqb_spec (GoInt.sub (GoInt.sub n0 (devsAfter (mdev m))) (devsBefore (mdev m)))
              drlen) as [Heq|_]; [contradiction|].
  cbn [negb]. rewrite log_two. reflexivity.
Qed.

(** The path past the two checks: the right length, then the DR scan. *)
Lemma CheckDR_scan m ir drlen x n0 st1 st2 :
  let dev := mdev m in
  let tdi := Ones (irlenBefore dev) ++ FromUint ir (irlen dev) ++ Ones (irlenAfter dev) in
  let n := GoInt.sub (GoInt.sub n0 (devsAfter dev)) (devsBefore dev) in
  let m2 := {| mdev := dev; mdrv := st2;
               mlog := mlog m ++ [EvScanIR tdi false; EvDRLength] |} in
  ScanIR (drv dev) tdi false (mdrv m) = ((x, None), st1) ->
  drLength (chain dev) st1 = ((n0, None), st2) ->
  n = drlen ->
  CheckDR ir drlen m =
    match RdWrDR (Zeros drlen) 0 m2 with
    | (Val (_, Some err), m3) => (Val (0, Some err), m3)
    | (Val (None, None), m3) => (Panic NilDereference, m3)
    | (Val (Some tdo, None), m3) =>
        match Split tdo [drlen] with
        | Val (v :: _) => (Val (GoInt.uint v, None), m3)
        | Val [] => (Panic IndexOutOfRange, m3)
        | Panic p => (Panic p, m3)
        | OutOfFuel => (OutOfFuel, m3)
        end
    | (Panic p, m3) => (Panic p, m3)
    | (OutOfFuel, m3) => (OutOfFuel, m3)
    end.
Proof.
  cbv zeta. intros Hscan Hprobe Heq.
  unfold CheckDR, deref, at0, bind, this, ret, lift. cbv beta iota.
  rewrite WrIR_eq. cbv zeta. rewrite Hscan. cbn [fst snd].
  rewrite GetDRLength_eq. cbv zeta. cbn [mdev mdrv mlog].
  rewrite Hprobe. cbn [fst snd]. rewrite Heq, Z.eqb_refl. cbn [negb].
  rewrite log_two.
  destruct (RdWrDR _ _ _) as [[[[tdo|] [e|]]|p|] m3]; cbn [fst snd];
    try reflexivity.
  destruct (Split _ _) as [[|v vs]| |]; reflexivity.
Qed.

End CheckDRFacts.

Section CheckDRClaims.

(** C4.  What [CheckDR] returns when a scan step fails: after a failed IR
    write and after a failed DR-length probe it returns the pair
    [(0, nil)], the error dropped; only the failure of the last step, the
    DR scan, comes back as the error. *)
Theorem C4_CheckDR_drops_error :
  observe (CheckDR 10 1
             (start (device_of (chain_of broken two_taps (fun _ => (2, None))) 4 5 0 1 0) tt))
    = (Val (0, None),
       [EvScanIR [true; true; true; true; true; true; false; true; false] false])
  /\ observe (CheckDR 10 1
                (start (device_of (chain_of echo two_taps (fun _ => (0, Some transport)))
                          4 5 0 1 0) tt))
     = (Val (0, None),
        [EvScanIR [true; true; true; true; true; true; false; true; false] false;
         EvDRLength])
  /\ observe (CheckDR 10 1
                (start (device_of (chain_of dr_broken two_taps (fun _ => (2, None)))
                          4 5 0 1 0) tt))
     = (Val (0, Some transport),
        [EvScanIR [true; true; true; true; true; true; false; true; false] false;
         EvDRLength;
         EvScanDR [true; false] 0 true]).
Proof. repeat split. Qed.

(** C5.  With the IR write and the probe succeeding, [CheckDR] has
    written ir to the IR and probed the DR length.  If the device's
    length n differs from drlen, it fails with the error whose message
    gives ir, n and drlen and scans no DR; if n is drlen, it scans a DR
    of drlen zero bits, padded, with capture and no idle cycles, and
    returns this device's part of the capture as a [uint], with no
    error. *)
Theorem C5_CheckDR (St : Type) (m : Mem St) (ir drlen : Z)
    (x : option BitString) (n0 : Z) (st1 st2 : St) :
  let dev := mdev m in
  let tdi := Ones (irlenBefore dev) ++ FromUint ir (irlen dev) ++ Ones (irlenAfter dev) in
  let tdr := Ones (devsBefore dev) ++ Zeros drlen ++ Ones (devsAfter dev) in
  let n := GoInt.sub (GoInt.sub n0 (devsBefore dev)) (devsAfter dev) in
  ScanIR (drv dev) tdi false (mdrv m) = ((x, None), st1) ->
  drLength (chain dev) st1 = ((n0, None), st2) ->
  (n <> drlen ->
   CheckDR ir drlen m =
     (Val (0, Some (Error ("ir " ++ fmt_d ir ++ " dr length is " ++ fmt_d n
                           ++ ", expected " ++ fmt_d drlen)%string)),
      {| mdev := dev; mdrv := st2;
         mlog := mlog m ++ [EvScanIR tdi false; EvDRLength] |}))
  /\ (n = drlen ->
      forall (h r t : BitString) (st3 : St),
        GoInt.len h = devsBefore dev -> GoInt.len r = drlen ->
        GoInt.len t = devsAfter dev ->
        ScanDR (drv dev) tdr 0 true st2 = ((Some (h ++ r ++ t), None), st3) ->
        CheckDR ir drlen m =
          (Val (GoInt.uint (to_Z r), None),
           {| mdev := dev; mdrv := st3;
              mlog := mlog m ++ [EvScanIR tdi false; EvDRLength; EvScanDR tdr 0 true] |})).
Proof.
  cbv zeta. intros Hscan Hprobe.
  rewrite (sub_sub_swap n0). split.
  - intros Hne. apply (CheckDR_mismatch m ir drlen x n0 st1 st2 Hscan Hprobe Hne).
  - intros Heq h r t st3 Hh Hr Ht Hdr.
    rewrite (CheckDR_scan m ir drlen x n0 st1 st2 Hscan Hprobe Heq). cbv zeta.
    rewrite (RdWrDR_strip
               {| mdev := mdev m; mdrv := st2;
                  mlog := mlog m ++ [EvScanIR
                                       (Ones (irlenBefore (mdev m))
                                        ++ FromUint ir (irlen (mdev m))
                                        ++ Ones (irlenAfter (mdev m))) false;
                                     EvDRLength] |}
               (Zeros drlen) 0 h r t st3 Hh Ht Hdr).
    cbn [mdev mdrv mlog].
    rewrite (Split_one r drlen Hr), uint_idem.
    rewrite <- app_assoc. reflexivity.
Qed.

Lemma C5_CheckDR_witness :
  let ch := chain_of (latch (fun _ => false) [true; true; false; true; true])
              two_taps (fun _ => (5, None)) in
  let dev := device_of ch 5 0 4 0 1 in
  fst (CheckDR 3 7 (start dev [])) = Val (0, Some (Error "ir 3 dr length is 4, expected 7"))
  /\ fst (CheckDR 3 4 (start dev [])) = Val (13, None).
Proof.
  cbv zeta.
  pose proof (C5_CheckDR (list bool)
    (start (device_of (chain_of (latch (fun _ => false) [true; true; false; true; true])
                         two_taps (fun _ => (5, None))) 5 0 4 0 1) [])
    3 7 None 5 (FromUint 3 5 ++ Ones 4) (FromUint 3 5 ++ Ones 4) eq_refl eq_refl) as H7.
  pose proof (C5_CheckDR (list bool)
    (start (device_of (chain_of (latch (fun _ => false) [true; true; false; true; true])
                         two_taps (fun _ => (5, None))) 5 0 4 0 1) [])
    3 4 None 5 (FromUint 3 5 ++ Ones 4) (FromUint 3 5 ++ Ones 4) eq_refl eq_refl) as H4.
  cbv zeta in H7, H4. split.
  - refine (f_equal fst (proj1 H7 _)). vm_compute. discriminate.
  - exact (f_equal fst
             (proj2 H4 eq_refl [] [true; true; false; true] [true]
                (FromUint 3 5 ++ Ones 4) eq_refl eq_refl eq_refl eq_refl)).
Defined.

End CheckDRClaims.

(* ===================================================================== *)
(** ** Survey *)

Section SurveyFacts.

Context {St : Type}.
Implicit Types (m : Mem St) (s : list string).

Lemma pow2_bounds (n : Z) : 0 <= n <= 62 -> 0 < 2 ^ n <= 2 ^ 62.
Proof.
  intros H. split.
  - apply Z.pow_pos_nonneg; lia.
  - apply Z.pow_le_mono_r; lia.
Qed.

Lemma shl_one (n : Z) : 0 <= n <= 62 -> GoInt.shl 1 n = Val (2 ^ n).
Proof.
  intros H. unfold GoInt.shl.
  destruct (Z.ltb_spec n 0) as [?|_]; [lia|].
  destruct (Z.leb_spec 64 n) as [?|_]; [lia|].
  rewrite Z.shiftl_mul_pow2, Z.mul_1_l by lia.
  rewrite wrap_small; [reflexivity|].
  pose proof (pow2_bounds n H).
  unfold GoInt.in_int, GoInt.int_min, GoInt.int_max. lia.
Qed.

(** One value of the survey, case by case. *)
Lemma report_line_eq m v :
  let dev := mdev m in
  let r := ScanIR (drv dev) (ir_write dev v) false (mdrv m) in
  let p := drLength (chain dev) (snd r) in
  report_line v m =
    match snd (fst r) with
    | Some _ =>
        (Val (line_cant_write v),
         {| mdev := dev; mdrv := snd r;
            mlog := mlog m ++ [EvScanIR (ir_write dev v) false] |})
    | None =>
        match snd (fst p) with
        | Some _ =>
            (Val (line_unknown v),
             {| mdev := dev; mdrv := snd p;
                mlog := mlog m ++ [EvScanIR (ir_write dev v) false; EvDRLength] |})
        | None =>
            (Val (line_drlen v (GoInt.sub (GoInt.sub (fst (fst p)) (devsAfter dev))
                                  (devsBefore dev))),
             {| mdev := dev; mdrv := snd p;
                mlog := mlog m ++ [EvScanIR (ir_write dev v) false; EvDRLength] |})
        end
    end.
Proof.
  cbv zeta. unfold report_line, ir_write, bind, this, ret. cbv beta iota.
  rewrite WrIR_eq. cbv zeta.
  destruct (ScanIR _ _ _ _) as [[x [e|]] st1]; cbn [fst snd]; [reflexivity|].
  rewrite GetDRLength_eq. cbv zeta. cbn [mdev mdrv mlog].
  destruct (drLength _ _) as [[n [e|]] st2]; cbn [fst snd];
    rewrite log_two; reflexivity.
Qed.

(** A value always gets its line: one IR write, the device untouched. *)
Lemma report_line_total m v :
  exists (l : string) (evs : list event) (st' : St),
    report_line v m =
      (Val l, {| mdev := mdev m; mdrv := st'; mlog := mlog m ++ evs |})
    /\ filter is_ir_scan evs = [EvScanIR (ir_write (mdev m) v) false]
    /\ (l = line_cant_write v \/ l = line_unknown v
        \/ exists n : Z, l = line_drlen v n).
Proof.
  rewrite report_line_eq. cbv zeta.
  destruct (snd (fst (ScanIR _ _ _ _))) as [e|].
  - eexists. eexists. eexists. split; [reflexivity|].
    split; [reflexivity|]. left. reflexivity.
  - destruct (snd (fst (drLength _ _))) as [e|].
    + eexists. eexists. eexists. split; [reflexivity|].
      split; [reflexivity|]. right. left. reflexivity.
    + eexists. eexists. eexists. split; [reflexivity|].
      split; [reflexivity|]. right. right. eexists. reflexivity.
Qed.

(** Inside the range, one turn of the loop is the report of its value. *)
Lemma Survey_loop_step m fuel ir s :
  0 <= irlen (mdev m) <= 62 ->
  0 <= ir < 2 ^ irlen (mdev m) ->
  Survey_loop (S fuel) ir s m =
    match report_line ir m with
    | (Val l, m') => Survey_loop fuel (ir + 1) (s ++ [l]) m'
    | (Panic p, m') => (Panic p, m')
    | (OutOfFuel, m') => (OutOfFuel, m')
    end.
Proof.
  intros Hn Hir. pose proof (pow2_bounds _ Hn) as Hp.
  rewrite report_line_eq. cbv zeta.
  cbn [Survey_loop]. unfold bind, this, lift, ret. cbv beta iota.
  rewrite (shl_one _ Hn).
  destruct (Z.ltb_spec ir (2 ^ irlen (mdev m))) as [_|?]; [|lia].
  rewrite uint_small by lia.
  assert (Hadd : GoInt.add ir 1 = ir + 1).
  { unfold GoInt.add. apply wrap_small.
    unfold GoInt.in_int, GoInt.int_min, GoInt.int_max. lia. }
  rewrite Hadd, WrIR_eq. cbv zeta. fold (ir_write (mdev m) ir).
  destruct (ScanIR _ _ _ _) as [[x [e|]] st1]; cbn [fst snd]; [reflexivity|].
  rewrite chainDrLength_eq. cbn [mdev mdrv mlog fst snd].
  destruct (drLength _ _) as [[n [e|]] st2]; cbn [fst snd mdev];
    rewrite log_two; reflexivity.
Qed.

(** At the bound the loop returns what it has. *)
Lemma Survey_loop_exit m fuel ir s :
  0 <= irlen (mdev m) <= 62 ->
  2 ^ irlen (mdev m) <= ir ->
  Survey_loop (S fuel) ir s m = (Val s, m).
Proof.
  intros Hn Hir. cbn [Survey_loop]. unfold bind, this, lift, ret. cbv beta iota.
  rewrite (shl_one _ Hn).
  destruct (Z.ltb_spec ir (2 ^ irlen (mdev m))) as [?|_]; [lia|]. reflexivity.
Qed.

(** With fuel for every turn and the test that ends it, the loop appends
    the report lines of the values it has yet to visit. *)
Lemma Survey_loop_reports (k : nat) :
  forall (fuel : nat) (ir : Z) s m,
    0 <= irlen (mdev m) <= 62 ->
    0 <= ir ->
    ir + Z.of_nat k = 2 ^ irlen (mdev m) ->
    (k < fuel)%nat ->
    Survey_loop fuel ir s m =
      match report_lines (values_from ir k) m with
      | (Val ls, m') => (Val (s ++ ls), m')
      | (Panic p, m') => (Panic p, m')
      | (OutOfFuel, m') => (OutOfFuel, m')
      end.
Proof.
  induction k as [|k IH]; intros fuel ir s m Hn Hir Hsum Hfuel.
  - destruct fuel as [|fuel]; [lia|].
    rewrite Survey_loop_exit by lia.
    cbn. unfold ret. rewrite app_nil_r. reflexivity.
  - destruct fuel as [|fuel]; [lia|].
    rewrite Survey_loop_step by lia.
    unfold values_from. cbn [seq map report_lines].
    rewrite Z2Nat.id by lia.
    unfold bind at 1.
    destruct (report_line_total m ir) as (l & evs & st' & Hl & _ & _).
    rewrite Hl.
    rewrite (IH fuel (ir + 1) (s ++ [l])); cbn [mdev]; try lia.
    unfold values_from.
    replace (Z.to_nat (ir + 1)) with (S (Z.to_nat ir)) by lia.
    unfold bind, ret.
    destruct (report_lines _ _) as [[ls| |] m2]; try reflexivity.
    rewrite <- app_assoc. reflexivity.
Qed.

(** The report lines of a list of values: a line for each, an IR write
    for each, in order. *)
Lemma report_lines_total (irs : list Z) :
  forall m,
  exists (lines : list string) (evs : list event) (st' : St),
    report_lines irs m =
      (Val lines, {| mdev := mdev m; mdrv := st'; mlog := mlog m ++ evs |})
    /\ filter is_ir_scan evs
       = map (fun v => EvScanIR (ir_write (mdev m) v) false) irs
    /\ Forall2 (fun v l => l = line_cant_write v \/ l = line_unknown v
                           \/ exists n : Z, l = line_drlen v n) irs lines.
Proof.
  induction irs as [|v rest IH]; intros m.
  - exists [], [], (mdrv m). cbn. unfold ret. rewrite app_nil_r.
    destruct m. repeat split. constructor.
  - destruct (report_line_total m v) as (l & evs1 & st1 & Hl & Hf1 & Hline).
    destruct (IH {| mdev := mdev m; mdrv := st1; mlog := mlog m ++ evs1 |})
      as (ls & evs2 & st2 & Hls & Hf2 & Hall).
    exists (l :: ls), (evs1 ++ evs2), st2.
    cbn [report_lines]. unfold bind at 1. rewrite Hl.
    unfold bind at 1. rewrite Hls. unfold ret. cbn [mdev mlog] in *.
    rewrite app_assoc. split; [reflexivity|]. split.
    + rewrite filter_app, Hf1, Hf2. reflexivity.
    + constructor; assumption.
Qed.

End SurveyFacts.

Section SurveyClaims.

(** C8 as stated fails for an IR of 63 bits: [1 << 63] is negative as an
    [int], the loop's test fails at once, and the survey returns the
    empty report without a single IR write. *)
Lemma C8_Survey_irlen63 :
  let m := start (device_of (chain_of echo two_taps (fun _ => (2, None))) 63 0 0 0 0) tt in
  (forall fuel : nat, observe (Survey (S fuel) m) = (Val EmptyString, []))
  /\ ~ Survey_complete m.
Proof.
  cbv zeta. split.
  - intros fuel. reflexivity.
  - intros (fuel & s & m' & Hrun & Hlen).
    destruct fuel as [|fuel]; [discriminate Hrun|].
    vm_compute in Hrun. injection Hrun as <- _.
    vm_compute in Hlen. discriminate Hlen.
Qed.

(** C8, amended.  For a device with 0 <= irlen <= 62 and fuel for every
    turn of the loop, [Survey] returns: its lines are those of the
    survey the spec words, one for each IR value 0, 1, ..., 2^irlen - 1
    in ascending order, joined by newlines; there are 2^irlen of them;
    the IR scans it makes are the writes of these values, in order; and
    each value's line is its "drlen" line, or one of the two error lines
    when its IR write or its DR-length probe failed, the walk going on
    to the next value. *)
Theorem C8_Survey (St : Type) (m : Mem St) (fuel : nat) :
  let dev := mdev m in
  0 <= irlen dev <= 62 ->
  2 ^ irlen dev < Z.of_nat fuel ->
  Survey_complete m
  /\ exists (lines : list string) (evs : list event) (st' : St),
       let m' := {| mdev := dev; mdrv := st'; mlog := mlog m ++ evs |} in
       Survey fuel m = (Val (Join lines newline), m')
       /\ report_lines (ir_values (irlen dev)) m = (Val lines, m')
       /\ GoInt.len lines = 2 ^ irlen dev
       /\ filter is_ir_scan evs
          = map (fun v => EvScanIR (ir_write dev v) false) (ir_values (irlen dev))
       /\ Forall2 (fun v l => l = line_cant_write v \/ l = line_unknown v
                              \/ exists n : Z, l = line_drlen v n)
            (ir_values (irlen dev)) lines.
Proof.
  cbv zeta. intros Hn Hfuel. pose proof (pow2_bounds _ Hn) as Hp.
  destruct (report_lines_total (ir_values (irlen (mdev m))) m)
    as (lines & evs & st' & Hrep & Hscans & Hall).
  assert (Hloop : Survey_loop fuel 0 [] m
                  = (Val lines, {| mdev := mdev m; mdrv := st'; mlog := mlog m ++ evs |})).
  { rewrite (Survey_loop_reports (Z.to_nat (2 ^ irlen (mdev m)))) by lia.
    fold (ir_values (irlen (mdev m))). rewrite Hrep. reflexivity. }
  assert (Hlen : GoInt.len lines = 2 ^ irlen (mdev m)).
  { apply Forall2_length in Hall. unfold GoInt.len. rewrite <- Hall.
    unfold ir_values, values_from. rewrite length_map, length_seq. lia. }
  split.
  - exists fuel, lines. eexists. split; [exact Hloop | exact Hlen].
  - exists lines, evs, st'. split.
    + unfold Survey, bind. rewrite Hloop. reflexivity.
    + repeat split; assumption.
Qed.

Lemma C8_Survey_witness :
  let ch := chain_of (latch (fun t => to_Z t =? 2) [])
              [ {| Name := "tap"; ID := 1; IRLength := 2 |} ]
              (fun st => if to_Z st =? 1 then (0, Some transport) else (1 + to_Z st, None)) in
  let m := start (device_of ch 2 0 0 0 0) [] in
  Survey_complete m
  /\ exists (lines : list string) (evs : list event) (st' : BitString),
       observe (Survey 5 m) = (Val (Join lines newline), evs)
       /\ lines = [ "ir 0 drlen 1"; "ir 1 drlen unknown";
                    "ir 2 can't write ir"; "ir 3 drlen 4" ]%string
       /\ GoInt.len lines = 4
       /\ filter is_ir_scan evs
          = [ EvScanIR [false; false] false; EvScanIR [false; true] false;
              EvScanIR [true; false] false; EvScanIR [true; true] false ].
Proof.
  cbv zeta.
  destruct (C8_Survey (list bool)
              (start (device_of
                        (chain_of (latch (fun t => to_Z t =? 2) [])
                           [ {| Name := "tap"; ID := 1; IRLength := 2 |} ]
                           (fun st => if to_Z st =? 1 then (0, Some transport)
                                      else (1 + to_Z st, None)))
                        2 0 0 0 0) [])
              5 ltac:(simpl; lia) ltac:(simpl; lia))
    as [Hc (lines & evs & st' & Hrun & Hrep & Hlen & Hscans & _)].
  split; [exact Hc|].
  exists lines, evs, st'.
  vm_compute in Hrep. injection Hrep as <- <- <-.
  repeat split.
Defined.

End SurveyClaims.

(* ===================================================================== *)
(** ** The device cell is never written *)

Create HintDb keeps discriminated.

Section Frame.

Context {St : Type}.

Lemma keeps_ret {A} (a : A) : keeps_dev (St:=St) (ret a).
Proof. intros m. reflexivity. Qed.

Lemma keeps_lift {A} (r : result A) : keeps_dev (St:=St) (lift r).
Proof. intros m. reflexivity. Qed.

Lemma keeps_this : keeps_dev (St:=St) this.
Proof. intros m. reflexivity. Qed.

Lemma keeps_bind {A B} (c : M St A) (k : A -> M St B) :
  keeps_dev c -> (forall a, keeps_dev (k a)) -> keeps_dev (bind c k).
Proof.
  intros Hc Hk m. unfold bind. specialize (Hc m).
  destruct (c m) as [[a|p|] m1]; cbn [snd] in *.
  - rewrite (Hk a m1). exact Hc.
  - exact Hc.
  - exact Hc.
Qed.

Lemma keeps_drvScanIR tdi needTdo : keeps_dev (St:=St) (drvScanIR tdi needTdo).
Proof. intros m. rewrite drvScanIR_eq. reflexivity. Qed.

Lemma keeps_drvScanDR tdi idle needTdo :
  keeps_dev (St:=St) (drvScanDR tdi idle needTdo).
Proof. intros m. rewrite drvScanDR_eq. reflexivity. Qed.

Lemma keeps_chainDrLength : keeps_dev (St:=St) chainDrLength.
Proof. intros m. rewrite chainDrLength_eq. reflexivity. Qed.

Lemma keeps_deref p : keeps_dev (St:=St) (deref p).
Proof. destruct p; intros m; reflexivity. Qed.

Lemma keeps_at0 s : keeps_dev (St:=St) (at0 s).
Proof. destruct s; intros m; reflexivity. Qed.

End Frame.

#[export] Hint Resolve keeps_ret keeps_lift keeps_this keeps_drvScanIR
  keeps_drvScanDR keeps_chainDrLength keeps_deref keeps_at0 : keeps.

(** Walks a method's body: a bind keeps the device when both sides do,
    a branch when each arm does. *)
Ltac keeps_walk :=
  repeat first
    [ progress eauto 2 with keeps
    | apply keeps_bind; [ | intros ? ]
    | match goal with
      | |- keeps_dev (match ?x with _ => _ end) => destruct x
      | |- keeps_dev (if ?x then _ else _) => destruct x
      end ].

Section FrameMethods.

Context {St : Type}.

Lemma keeps_WrIR wr : keeps_dev (St:=St) (WrIR wr).
Proof. unfold WrIR. keeps_walk. Qed.

Lemma keeps_RdWrIR wr : keeps_dev (St:=St) (RdWrIR wr).
Proof. unfold RdWrIR. keeps_walk. Qed.

Lemma keeps_WrDR wr idle : keeps_dev (St:=St) (WrDR wr idle).
Proof. unfold WrDR. keeps_walk. Qed.

Lemma keeps_RdWrDR wr idle : keeps_dev (St:=St) (RdWrDR wr idle).
Proof. unfold RdWrDR. keeps_walk. Qed.

Lemma keeps_GetDRLength : keeps_dev (St:=St) GetDRLength.
Proof. unfold GetDRLength. keeps_walk. Qed.

Lemma keeps_testIRCapture : keeps_dev (St:=St) testIRCapture.
Proof.
  unfold testIRCapture. pose proof keeps_RdWrIR. keeps_walk.
Qed.

Lemma keeps_CheckDR ir drlen : keeps_dev (St:=St) (CheckDR ir drlen).
Proof.
  unfold CheckDR.
  pose proof keeps_WrIR. pose proof keeps_GetDRLength. pose proof keeps_RdWrDR.
  keeps_walk.
Qed.

Lemma keeps_Survey_loop fuel :
  forall ir s, keeps_dev (St:=St) (Survey_loop fuel ir s).
Proof.
  induction fuel as [|fuel IH]; intros ir s; cbn [Survey_loop].
  - apply keeps_lift.
  - pose proof keeps_WrIR. keeps_walk.
Qed.

Lemma keeps_Survey fuel : keeps_dev (St:=St) (Survey fuel).
Proof.
  unfold Survey. pose proof keeps_Survey_loop. keeps_walk.
Qed.

End FrameMethods.

Section FrameClaim.

(** C10.  No method writes the device: after [WrIR], [RdWrIR], [WrDR],
    [RdWrDR], [GetDRLength], [CheckDR], [Survey], [testIRCapture] and
    the getters, whatever the arguments and whether the method returned
    a value, an error or panicked, the device cell holds the device it
    held before, and so each of its fields. *)
Theorem C10_Device_unchanged (St : Type) (m : Mem St) :
  (forall wr, mdev (snd (WrIR wr m)) = mdev m)
  /\ (forall wr, mdev (snd (RdWrIR wr m)) = mdev m)
  /\ (forall wr idle, mdev (snd (WrDR wr idle m)) = mdev m)
  /\ (forall wr idle, mdev (snd (RdWrDR wr idle m)) = mdev m)
  /\ mdev (snd (GetDRLength m)) = mdev m
  /\ (forall ir drlen, mdev (snd (CheckDR ir drlen m)) = mdev m)
  /\ (forall fuel, mdev (snd (Survey fuel m)) = mdev m)
  /\ mdev (snd (testIRCapture m)) = mdev m
  /\ mdev (snd (GetIRLength m)) = mdev m
  /\ mdev (snd (GetIDCode m)) = mdev m.
Proof.
  repeat split; intros.
  - apply keeps_WrIR.
  - apply keeps_RdWrIR.
  - apply keeps_WrDR.
  - apply keeps_RdWrDR.
  - apply keeps_GetDRLength.
  - apply keeps_CheckDR.
  - apply keeps_Survey.
  - apply keeps_testIRCapture.
Qed.

End FrameClaim.

(* ===================================================================== *)
(** ** Further behaviour of the device methods *)

Section DeviceEdges.

(** X1.  [NewDevice] returns a device exactly for 0 <= idx < len(info):
    outside this range [ch.info[idx]] panics, inside it the device is
    that of the idx-th entry and shares the chain's driver. *)
Theorem X1_NewDevice_bounds (St : Type) (ch : Chain St) (i : Z) :
  (i < 0 \/ GoInt.len (info ch) <= i -> NewDevice ch i = Panic IndexOutOfRange)
  /\ (0 <= i < GoInt.len (info ch) ->
      exists (d : DeviceInfo) (dev : Device St),
        nth_error (info ch) (Z.to_nat i) = Some d
        /\ NewDevice ch i = Val dev
        /\ idx dev = i /\ chain dev = ch /\ drv dev = ch_drv ch
        /\ name dev = Name d /\ idcode dev = ID d /\ irlen dev = IRLength d).
Proof.
  unfold NewDevice, index. split.
  - intros [H|H].
    + destruct (Z.ltb_spec i 0) as [_|?]; [reflexivity | lia].
    + destruct (Z.leb_spec (GoInt.len (info ch)) i) as [_|?]; [|lia].
      rewrite orb_true_r. reflexivity.
  - intros H.
    destruct (Z.ltb_spec i 0) as [?|_]; [lia|].
    destruct (Z.leb_spec (GoInt.len (info ch)) i) as [?|_]; [lia|].
    cbn [orb].
    destruct (nth_error (info ch) (Z.to_nat i)) as [d|] eqn:Hnth.
    + exists d. eexists. repeat split.
    + apply nth_error_None in Hnth. unfold GoInt.len in H. lia.
Qed.

Lemma X1_NewDevice_bounds_witness :
  NewDevice (chain_of echo two_taps (fun _ => (2, None))) 2 = Panic IndexOutOfRange
  /\ exists (d : DeviceInfo) (dev : Device unit),
       nth_error two_taps 0 = Some d
       /\ NewDevice (chain_of echo two_taps (fun _ => (2, None))) 0 = Val dev
       /\ idx dev = 0 /\ chain dev = chain_of echo two_taps (fun _ => (2, None))
       /\ drv dev = echo
       /\ name dev = Name d /\ idcode dev = ID d /\ irlen dev = IRLength d.
Proof.
  split.
  - apply (proj1 (X1_NewDevice_bounds unit (chain_of echo two_taps (fun _ => (2, None))) 2)).
    right. vm_compute. discriminate.
  - apply (proj2 (X1_NewDevice_bounds unit (chain_of echo two_taps (fun _ => (2, None))) 0)).
    split; vm_compute; [discriminate | reflexivity].
Defined.

(** X2.  When the driver's scan fails, [RdWrIR] and [RdWrDR] return a
    nil bit string and the driver's error unchanged, whatever capture
    came with it; nothing is stripped. *)
Theorem X2_RdWr_scan_error (St : Type) (m : Mem St) (wr : BitString) (idle : Z) :
  let dev := mdev m in
  let ti := Ones (irlenBefore dev) ++ wr ++ Ones (irlenAfter dev) in
  let td := Ones (devsBefore dev) ++ wr ++ Ones (devsAfter dev) in
  (forall x e st',
      ScanIR (drv dev) ti true (mdrv m) = ((x, Some e), st') ->
      RdWrIR wr m =
        (Val (None, Some e),
         {| mdev := dev; mdrv := st'; mlog := mlog m ++ [EvScanIR ti true] |}))
  /\ (forall x e st',
         ScanDR (drv dev) td idle true (mdrv m) = ((x, Some e), st') ->
         RdWrDR wr idle m =
           (Val (None, Some e),
            {| mdev := dev; mdrv := st'; mlog := mlog m ++ [EvScanDR td idle true] |})).
Proof.
  cbv zeta. split; intros x e st' Hscan.
  - rewrite RdWrIR_eq. cbv zeta. rewrite Hscan. reflexivity.
  - rewrite RdWrDR_eq. cbv zeta. rewrite Hscan. reflexivity.
Qed.

Lemma X2_RdWr_scan_error_witness :
  let dev := device_of (chain_of broken two_taps (fun _ => (2, None))) 4 5 0 1 0 in
  fst (RdWrIR [true] (start dev tt)) = Val (None, Some transport)
  /\ fst (RdWrDR [true] 3 (start dev tt)) = Val (None, Some transport).
Proof.
  cbv zeta. split.
  - exact (f_equal fst
             (proj1 (X2_RdWr_scan_error unit
                       (start (device_of (chain_of broken two_taps (fun _ => (2, None)))
                                 4 5 0 1 0) tt) [true] 3)
                None transport tt eq_refl)).
  - exact (f_equal fst
             (proj2 (X2_RdWr_scan_error unit
                       (start (device_of (chain_of broken two_taps (fun _ => (2, None)))
                                 4 5 0 1 0) tt) [true] 3)
                None transport tt eq_refl)).
Defined.

(** X3.  When the IR write and the probe succeed and the length is the
    expected one, a failure of the DR scan comes back from [CheckDR] as
    the pair of 0 and that error. *)
Theorem X3_CheckDR_scan_error (St : Type) (m : Mem St) (ir drlen : Z)
    (x y : option BitString) (e : error) (n0 : Z) (st1 st2 st3 : St) :
  let dev := mdev m in
  let tdi := Ones (irlenBefore dev) ++ FromUint ir (irlen dev) ++ Ones (irlenAfter dev) in
  let tdr := Ones (devsBefore dev) ++ Zeros drlen ++ Ones (devsAfter dev) in
  ScanIR (drv dev) tdi false (mdrv m) = ((x, None), st1) ->
  drLength (chain dev) st1 = ((n0, None), st2) ->
  GoInt.sub (GoInt.sub n0 (devsAfter dev)) (devsBefore dev) = drlen ->
  ScanDR (drv dev) tdr 0 true st2 = ((y, Some e), st3) ->
  CheckDR ir drlen m =
    (Val (0, Some e),
     {| mdev := dev; mdrv := st3;
        mlog := mlog m ++ [EvScanIR tdi false; EvDRLength; EvScanDR tdr 0 true] |}).
Proof.
  cbv zeta. intros Hscan Hprobe Heq Hdr.
  rewrite (CheckDR_scan m ir drlen x n0 st1 st2 Hscan Hprobe Heq). cbv zeta.
  rewrite RdWrDR_eq. cbv zeta. cbn [mdev mdrv mlog].
  rewrite Hdr. cbn [fst snd]. rewrite <- app_assoc. reflexivity.
Qed.

Lemma X3_CheckDR_scan_error_witness :
  fst (CheckDR 10 1
         (start (device_of (chain_of dr_broken two_taps (fun _ => (2, None))) 4 5 0 1 0) tt))
    = Val (0, Some transport).
Proof.
  exact (f_equal fst
           (X3_CheckDR_scan_error unit
              (start (device_of (chain_of dr_broken two_taps (fun _ => (2, None)))
                        4 5 0 1 0) tt)
              10 1 None None transport 2 tt tt tt eq_refl eq_refl eq_refl eq_refl)).
Defined.

(** X4.  Outside 0 <= irlen <= 62 the survey does nothing: for a
    negative irlen the shift [1 << irlen] panics, and for irlen >= 63
    the bound is not positive as an [int], so that [Survey] returns the
    empty string; in both cases no call reaches the driver or the
    chain. *)
Theorem X4_Survey_out_of_range (St : Type) (m : Mem St) (fuel : nat) :
  (irlen (mdev m) < 0 -> Survey (S fuel) m = (Panic NegativeShift, m))
  /\ (63 <= irlen (mdev m) -> Survey (S fuel) m = (Val EmptyString, m)).
Proof.
  unfold Survey. cbn [Survey_loop]. unfold bind, this, lift, ret, GoInt.shl.
  cbv beta iota. split; intros H.
  - destruct (Z.ltb_spec (irlen (mdev m)) 0) as [_|?]; [reflexivity | lia].
  - destruct (Z.ltb_spec (irlen (mdev m)) 0) as [?|_]; [lia|].
    destruct (Z.leb_spec 64 (irlen (mdev m))) as [_|Hlt]; [reflexivity|].
    assert (Hn : irlen (mdev m) = 63) by lia. rewrite Hn. reflexivity.
Qed.

Lemma X4_Survey_out_of_range_witness :
  let ch := chain_of echo two_taps (fun _ => (2, None)) in
  Survey 1 (start (device_of ch (-1) 0 0 0 0) tt)
    = (Panic NegativeShift, start (device_of ch (-1) 0 0 0 0) tt)
  /\ Survey 1 (start (device_of ch 64 0 0 0 0) tt)
     = (Val EmptyString, start (device_of ch 64 0 0 0 0) tt).
Proof.
  cbv zeta. split.
  - apply (proj1 (X4_Survey_out_of_range unit _ 0)). simpl. lia.
  - apply (proj2 (X4_Survey_out_of_range unit _ 0)). simpl. lia.
Defined.

(** X5.  For a device built by [NewDevice] on a chain of N devices, a
    probe that reports n >= 0 makes [GetDRLength] return n - (N - 1);
    with every device in bypass (n = N) the length is 1. *)
Theorem X5_NewDevice_GetDRLength (St : Type) (ch : Chain St) (i : Z)
    (dev : Device St) (st st' : St) (log : list event) (n : Z) :
  let N := GoInt.len (info ch) in
  N <= GoInt.int_max ->
  NewDevice ch i = Val dev ->
  drLength ch st = ((n, None), st') ->
  0 <= n <= GoInt.int_max ->
  fst (GetDRLength {| mdev := dev; mdrv := st; mlog := log |}) = Val (n - (N - 1), None)
  /\ (n = N ->
      fst (GetDRLength {| mdev := dev; mdrv := st; mlog := log |}) = Val (1, None)).
Proof.
  cbv zeta. intros HN Hnew Hprobe Hn.
  assert (Hres : fst (GetDRLength {| mdev := dev; mdrv := st; mlog := log |})
                 = Val (n - (GoInt.len (info ch) - 1), None)).
  { unfold NewDevice, index in Hnew.
    destruct (Z.ltb_spec i 0) as [?|Hi0]; [discriminate Hnew|].
    destruct (Z.leb_spec (GoInt.len (info ch)) i) as [?|HiN]; [discriminate Hnew|].
    cbn [orb] in Hnew.
    destruct (nth_error (info ch) (Z.to_nat i)) as [d|]; [|discriminate Hnew].
    injection Hnew as <-.
    rewrite GetDRLength_eq. cbv zeta. cbn [mdev mdrv chain devsAfter devsBefore].
    rewrite Hprobe. cbn [fst snd].
    rewrite !sub_sub_wrap.
    unfold GoInt.in_int, GoInt.int_min, GoInt.int_max in *.
    rewrite (wrap_small (GoInt.len (info ch) - i - 1))
      by (unfold GoInt.in_int, GoInt.int_min, GoInt.int_max; lia).
    rewrite wrap_small
      by (unfold GoInt.in_int, GoInt.int_min, GoInt.int_max; lia).
    do 2 f_equal. lia. }
  split; [exact Hres|].
  intros ->. rewrite Hres. do 2 f_equal. lia.
Qed.

Lemma X5_NewDevice_GetDRLength_witness :
  let ch := chain_of echo two_taps (fun _ => (2, None)) in
  exists dev : Device unit,
    NewDevice ch 1 = Val dev
    /\ fst (GetDRLength {| mdev := dev; mdrv := tt; mlog := [] |}) = Val (1, None).
Proof.
  cbv zeta. eexists. split; [reflexivity|].
  refine (proj2 (X5_NewDevice_GetDRLength unit
                   (chain_of echo two_taps (fun _ => (2, None))) 1 _ tt tt [] 2
                   _ eq_refl eq_refl _) eq_refl).
  - vm_compute. discriminate.
  - split; vm_compute; discriminate.
Defined.

End DeviceEdges.

Section DeviceSurveyEdges.

Context {St : Type}.

(** With every IR write failing, each value gets the "can't write" line
    and nothing but the IR scan is attempted for it. *)
Lemma report_lines_writes_fail (m0 : Mem St) (irs : list Z) :
  (forall tdi st, snd (fst (ScanIR (drv (mdev m0)) tdi false st)) <> None) ->
  forall m, mdev m = mdev m0 ->
  exists st' : St,
    report_lines irs m =
      (Val (map line_cant_write irs),
       {| mdev := mdev m0; mdrv := st';
          mlog := mlog m ++ map (fun v => EvScanIR (ir_write (mdev m0) v) false) irs |}).
Proof.
  intros Hfail. induction irs as [|v rest IH]; intros m Hm.
  - exists (mdrv m). cbn. unfold ret. rewrite app_nil_r, <- Hm.
    destruct m. reflexivity.
  - cbn [report_lines map]. unfold bind at 1.
    rewrite report_line_eq. cbv zeta. rewrite Hm.
    destruct (snd (fst (ScanIR (drv (mdev m0)) (ir_write (mdev m0) v) false (mdrv m))))
      as [e|] eqn:He; [|exfalso; exact (Hfail _ _ He)].
    destruct (IH {| mdev := mdev m0;
                    mdrv := snd (ScanIR (drv (mdev m0)) (ir_write (mdev m0) v) false (mdrv m));
                    mlog := mlog m ++ [EvScanIR (ir_write (mdev m0) v) false] |} eq_refl)
      as [st' Hrest].
    exists st'. unfold bind. rewrite Hrest. unfold ret. cbn [mlog].
    rewrite <- app_assoc. reflexivity.
Qed.



End DeviceSurveyEdges.

Section DeviceSurveyEdgeClaims.

(** X6.  On a driver whose IR writes all fail, [Survey] (0 <= irlen <= 62,
    fuel for the loop) still visits every IR value: it returns the
    "can't write ir" line of each value 0 .. 2^irlen - 1, makes exactly
    the IR scans of these values and never probes the DR length. *)
Theorem X6_Survey_writes_fail (St : Type) (m : Mem St) (fuel : nat) :
  let dev := mdev m in
  0 <= irlen dev <= 62 ->
  2 ^ irlen dev < Z.of_nat fuel ->
  (forall tdi st, snd (fst (ScanIR (drv dev) tdi false st)) <> None) ->
  exists st' : St,
    Survey fuel m =
      (Val (Join (map line_cant_write (ir_values (irlen dev))) newline),
       {| mdev := dev; mdrv := st';
          mlog := mlog m ++ map (fun v => EvScanIR (ir_write dev v) false)
                              (ir_values (irlen dev)) |}).
Proof.
  cbv zeta. intros Hn Hfuel Hfail. pose proof (pow2_bounds _ Hn) as Hp.
  destruct (report_lines_writes_fail m (ir_values (irlen (mdev m))) Hfail m eq_refl)
    as [st' Hrep].
  exists st'. unfold Survey, bind.
  rewrite (Survey_loop_reports (Z.to_nat (2 ^ irlen (mdev m)))) by lia.
  fold (ir_values (irlen (mdev m))). rewrite Hrep. reflexivity.
Qed.

Lemma X6_Survey_writes_fail_witness :
  let dev := device_of (chain_of broken two_taps (fun _ => (2, None))) 1 0 0 0 0 in
  exists st' : unit,
    Survey 3 (start dev tt) =
      (Val (Join [line_cant_write 0; line_cant_write 1] newline),
       {| mdev := dev; mdrv := st';
          mlog := [EvScanIR [false] false; EvScanIR [true] false] |}).
Proof.
  cbv zeta.
  apply (X6_Survey_writes_fail unit
           (start (device_of (chain_of broken two_taps (fun _ => (2, None))) 1 0 0 0 0) tt) 3).
  - simpl. lia.
  - simpl. lia.
  - intros tdi st. simpl. discriminate.
Defined.



End DeviceSurveyEdgeClaims.

(* ===================================================================== *)
(** ** The J-Link driver *)

Section JlinkClaims.

Context {Ctx Dev LibSt : Type}.

(** X8.  [DeviceByIndex] never indexes outside the slice: for
    0 <= idx < NumDevices it returns the idx-th device and no error,
    for every other idx no device and the error "device index idx out
    of range". *)
Theorem X8_DeviceByIndex (j : jlink.Jlink Ctx Dev) (i : Z) :
  (0 <= i < jlink.NumDevices j ->
   exists d : Dev,
     nth_error (jlink.dev j) (Z.to_nat i) = Some d
     /\ jlink.DeviceByIndex j i = Val (Some d, None))
  /\ (i < 0 \/ jlink.NumDevices j <= i ->
      jlink.DeviceByIndex j i =
        Val (None, Some (Error ("device index " ++ fmt_d i ++ " out of range")%string))).
Proof.
  unfold jlink.DeviceByIndex, jlink.NumDevices. split.
  - intros H.
    destruct (Z.ltb_spec i 0) as [?|_]; [lia|].
    destruct (Z.leb_spec (GoInt.len (jlink.dev j)) i) as [?|_]; [lia|].
    cbn [orb].
    destruct (nth_error (jlink.dev j) (Z.to_nat i)) as [d|] eqn:Hnth.
    + exists d. split; reflexivity.
    + apply nth_error_None in Hnth. unfold GoInt.len in H. lia.
  - intros [H|H].
    + destruct (Z.ltb_spec i 0) as [_|?]; [reflexivity | lia].
    + destruct (Z.leb_spec (GoInt.len (jlink.dev j)) i) as [_|?]; [|lia].
      rewrite orb_true_r. reflexivity.
Qed.


End JlinkClaims.

Lemma X8_DeviceByIndex_witness :
  jlink.DeviceByIndex {| jlink.ctx := tt; jlink.dev := [7; 8; 9]%nat |} 1 = Val (Some 8%nat, None)
  /\ jlink.DeviceByIndex {| jlink.ctx := tt; jlink.dev := [7; 8; 9]%nat |} 3
     = Val (None, Some (Error "device index 3 out of range")).
Proof.
  split.
  - destruct (proj1 (X8_DeviceByIndex {| jlink.ctx := tt; jlink.dev := [7; 8; 9]%nat |} 1))
      as [d [Hnth Hres]].
    + split; vm_compute; [discriminate | reflexivity].
    + rewrite Hres. injection Hnth as <-. reflexivity.
  - apply (proj2 (X8_DeviceByIndex {| jlink.ctx := tt; jlink.dev := [7; 8; 9]%nat |} 3)).
    right. vm_compute. discriminate.
Defined.

(* ===================================================================== *)
(** ** Bit fields of registers *)

Section StringOrder.

Lemma string_app_assoc (a b c : string) : ((a ++ b) ++ c = a ++ b ++ c)%string.
Proof. induction a as [|x a IH]; cbn; [reflexivity | rewrite IH; reflexivity]. Qed.

Lemma string_app_nil_r (a : string) : (a ++ "" = a)%string.
Proof. induction a as [|x a IH]; cbn; [reflexivity | rewrite IH; reflexivity]. Qed.

Lemma ascii_compare_refl (a : ascii) : Ascii.compare a a = Eq.
Proof. unfold Ascii.compare. apply N.compare_refl. Qed.

Lemma ascii_compare_lt_trans (a b c : ascii) :
  Ascii.compare a b = Lt -> Ascii.compare b c = Lt -> Ascii.compare a c = Lt.
Proof.
  unfold Ascii.compare. rewrite !N.compare_lt_iff. intros H1 H2.
  exact (N.lt_trans _ _ _ H1 H2).
Qed.

Lemma string_compare_refl (a : string) : String.compare a a = Eq.
Proof.
  induction a as [|x a IH]; cbn; [reflexivity|].
  rewrite ascii_compare_refl. exact IH.
Qed.

Lemma string_compare_lt_trans (a : string) :
  forall b c, String.compare a b = Lt -> String.compare b c = Lt ->
              String.compare a c = Lt.
Proof.
  induction a as [|x a IH]; intros [|y b] [|z c]; cbn; try discriminate;
    try reflexivity.
  destruct (Ascii.compare x y) eqn:Hxy; try discriminate;
    destruct (Ascii.compare y z) eqn:Hyz; try discriminate; intros H1 H2.
  - apply Ascii.compare_eq_iff in Hxy, Hyz. subst. rewrite ascii_compare_refl.
    exact (IH _ _ H1 H2).
  - apply Ascii.compare_eq_iff in Hxy. subst. rewrite Hyz. reflexivity.
  - apply Ascii.compare_eq_iff in Hyz. subst. rewrite Hxy. reflexivity.
  - rewrite (ascii_compare_lt_trans _ _ _ Hxy Hyz). reflexivity.
Qed.

(** [strings.Compare(a, b) < 0] as a strict order on strings. *)
Lemma Compare_neg_iff (a b : string) :
  (soc.Compare a b <? 0) = true <-> String.compare a b = Lt.
Proof.
  unfold soc.Compare. destruct (String.compare a b); cbn; split;
    intros H; try reflexivity; discriminate H.
Qed.

Lemma Compare_neg_total (a b : string) :
  (soc.Compare a b <? 0) = false -> (soc.Compare b a <? 0) = false -> a = b.
Proof.
  unfold soc.Compare. rewrite (String.compare_antisym b a).
  destruct (String.compare a b) eqn:H; cbn; intros H1 H2; try discriminate.
  apply String.compare_eq_iff. exact H.
Qed.

End StringOrder.

Section FieldOrder.

(** The comparison [Less] makes between two fields. *)
Lemma Less_at (a : soc.FieldSet) (i j : Z) (fi fj : soc.Field) :
  soc.at_index a i = Val fi -> soc.at_index a j = Val fj ->
  soc.Less a i j =
    Val (if soc.Msb fi =? soc.Msb fj
         then soc.Compare (soc.Name fi) (soc.Name fj) <? 0
         else soc.Msb fi >? soc.Msb fj).
Proof.
  intros Hi Hj. unfold soc.Less. rewrite Hi, Hj.
  destruct (soc.Msb fi =? soc.Msb fj); reflexivity.
Qed.

Lemma Less_true_inv (a : soc.FieldSet) (i j : Z) :
  soc.Less a i j = Val true ->
  exists fi fj,
    soc.at_index a i = Val fi /\ soc.at_index a j = Val fj
    /\ (soc.Msb fj < soc.Msb fi
        \/ (soc.Msb fi = soc.Msb fj
            /\ String.compare (soc.Name fi) (soc.Name fj) = Lt)).
Proof.
  unfold soc.Less. intros H.
  destruct (soc.at_index a i) as [fi| |]; try discriminate H.
  destruct (soc.at_index a j) as [fj| |]; try discriminate H.
  exists fi, fj. split; [reflexivity|]. split; [reflexivity|].
  destruct (Z.eqb_spec (soc.Msb fi) (soc.Msb fj)) as [He|Hne].
  - right. split; [exact He|]. apply Compare_neg_iff. congruence.
  - left. injection H as H. apply Z.gtb_lt in H. exact H.
Qed.

Lemma Less_true_intro (a : soc.FieldSet) (i j : Z) (fi fj : soc.Field) :
  soc.at_index a i = Val fi -> soc.at_index a j = Val fj ->
  (soc.Msb fj < soc.Msb fi
   \/ (soc.Msb fi = soc.Msb fj /\ String.compare (soc.Name fi) (soc.Name fj) = Lt)) ->
  soc.Less a i j = Val true.
Proof.
  intros Hi Hj H. rewrite (Less_at a i j fi fj Hi Hj). f_equal.
  destruct (Z.eqb_spec (soc.Msb fi) (soc.Msb fj)) as [He|Hne].
  - destruct H as [H|[_ H]]; [lia|]. apply Compare_neg_iff. exact H.
  - destruct H as [H|[H _]]; [|contradiction]. apply Z.gtb_lt. exact H.
Qed.

End FieldOrder.

Section FieldOrderClaims.

(** X10.  [Less] is a strict order on the positions of a field set: no
    position is less than itself, two positions are never less than each
    other both ways, and less is transitive. *)
Theorem X10_Less_strict_order (a : soc.FieldSet) (i j k : Z) :
  soc.Less a i i <> Val true
  /\ (soc.Less a i j = Val true -> soc.Less a j i = Val false)
  /\ (soc.Less a i j = Val true -> soc.Less a j k = Val true ->
      soc.Less a i k = Val true).
Proof.
  split; [|split].
  - intros H. apply Less_true_inv in H.
    destruct H as (fi & fj & Hi & Hj & H). rewrite Hi in Hj. injection Hj as <-.
    destruct H as [H|[_ H]]; [lia|]. rewrite string_compare_refl in H. discriminate H.
  - intros H. apply Less_true_inv in H.
    destruct H as (fi & fj & Hi & Hj & H).
    rewrite (Less_at a j i fj fi Hj Hi). f_equal.
    destruct (Z.eqb_spec (soc.Msb fj) (soc.Msb fi)) as [He|Hne].
    + destruct H as [H|[_ H]]; [lia|].
      unfold soc.Compare. rewrite String.compare_antisym, H. reflexivity.
    + destruct H as [H|[H _]]; [|congruence].
      destruct (Z.gtb_spec (soc.Msb fj) (soc.Msb fi)) as [?|_]; [lia | reflexivity].
  - intros H1 H2. apply Less_true_inv in H1, H2.
    destruct H1 as (fi & fj & Hi & Hj & H1).
    destruct H2 as (fj' & fk & Hj' & Hk & H2).
    rewrite Hj in Hj'. injection Hj' as <-.
    apply (Less_true_intro a i k fi fk Hi Hk).
    destruct H1 as [H1|[E1 L1]], H2 as [H2|[E2 L2]].
    + left. lia.
    + left. lia.
    + left. lia.
    + right. split; [congruence|].
      exact (string_compare_lt_trans _ _ _ L1 L2).
Qed.

Lemma X10_Less_strict_order_witness :
  let a := [ {| soc.Name := "EN"; soc.Msb := 0; soc.Lsb := 0; soc.Descr := "";
                soc.Fmt := None; soc.Enums := None;
                soc.cacheValid := false; soc.cacheVal := 0 |};
             {| soc.Name := "MODE"; soc.Msb := 7; soc.Lsb := 4; soc.Descr := "";
                soc.Fmt := None; soc.Enums := None;
                soc.cacheValid := false; soc.cacheVal := 0 |};
             {| soc.Name := "DIV"; soc.Msb := 7; soc.Lsb := 1; soc.Descr := "";
                soc.Fmt := None; soc.Enums := None;
                soc.cacheValid := false; soc.cacheVal := 0 |} ] in
  soc.Less a 2 0 = Val true /\ soc.Less a 1 2 = Val false.
Proof.
  cbv zeta. split.
  - refine (proj2 (proj2 (X10_Less_strict_order _ 2 1 0)) _ _); reflexivity.
  - refine (proj1 (proj2 (X10_Less_strict_order _ 2 1 0)) _); reflexivity.
Defined.

(** X11.  The order of [Less] is well defined up to the key (Msb, Name):
    two positions neither of which is less than the other hold fields
    with the same Msb and the same Name. *)
Theorem X11_Less_total (a : soc.FieldSet) (i j : Z) :
  soc.Less a i j = Val false -> soc.Less a j i = Val false ->
  exists fi fj,
    soc.at_index a i = Val fi /\ soc.at_index a j = Val fj
    /\ soc.sort_key fi = soc.sort_key fj.
Proof.
  unfold soc.Less. intros H1 H2.
  destruct (soc.at_index a i) as [fi| |]; try discriminate H1.
  destruct (soc.at_index a j) as [fj| |]; try discriminate H1.
  exists fi, fj. split; [reflexivity|]. split; [reflexivity|].
  unfold soc.sort_key.
  rewrite (Z.eqb_sym (soc.Msb fj)) in H2.
  destruct (Z.eqb_spec (soc.Msb fi) (soc.Msb fj)) as [He|Hne].
  - injection H1 as H1. injection H2 as H2.
    rewrite He, (Compare_neg_total _ _ H1 H2). reflexivity.
  - injection H1 as H1. injection H2 as H2.
    destruct (Z.gtb_spec (soc.Msb fi) (soc.Msb fj)); [discriminate H1|].
    destruct (Z.gtb_spec (soc.Msb fj) (soc.Msb fi)); [discriminate H2|]. lia.
Qed.

Lemma X11_Less_total_witness :
  let f := {| soc.Name := "EN"; soc.Msb := 3; soc.Lsb := 0; soc.Descr := "a";
              soc.Fmt := None; soc.Enums := None;
              soc.cacheValid := false; soc.cacheVal := 0 |} in
  let g := {| soc.Name := "EN"; soc.Msb := 3; soc.Lsb := 2; soc.Descr := "b";
              soc.Fmt := None; soc.Enums := None;
              soc.cacheValid := true; soc.cacheVal := 1 |} in
  exists fi fj,
    soc.at_index [f; g] 0 = Val fi /\ soc.at_index [f; g] 1 = Val fj
    /\ soc.sort_key fi = soc.sort_key fj.
Proof.
  cbv zeta. apply X11_Less_total; reflexivity.
Defined.

End FieldOrderClaims.

Section SliceFacts.

Context {A : Type}.
Implicit Types (a : list A) (n k : nat).

Lemma length_store a n (x : A) : List.length (soc.store a n x) = List.length a.
Proof.
  revert n. induction a as [|y a IH]; intros [|n]; cbn; try reflexivity.
  rewrite IH. reflexivity.
Qed.

(** Reading a slice after one store. *)
Lemma nth_error_store a n (x : A) k :
  nth_error (soc.store a n x) k =
    if ((k =? n) && (k <? List.length a))%nat then Some x else nth_error a k.
Proof.
  revert n k. induction a as [|y a IH]; intros n k.
  - rewrite andb_comm. destruct n, k; reflexivity.
  - destruct n as [|n], k as [|k]; cbn [soc.store nth_error]; try reflexivity.
    rewrite IH. reflexivity.
Qed.

Lemma at_index_inv a (i : Z) (x : A) :
  soc.at_index a i = Val x ->
  0 <= i < GoInt.len a /\ nth_error a (Z.to_nat i) = Some x.
Proof.
  unfold soc.at_index.
  destruct (Z.ltb_spec i 0); [discriminate|].
  destruct (Z.leb_spec (GoInt.len a) i); [discriminate|]. cbn [orb].
  destruct (nth_error a (Z.to_nat i)) as [y|]; [|discriminate].
  intros Hv. injection Hv as <-. split; [lia | reflexivity].
Qed.

Lemma at_index_nth a (i : Z) :
  0 <= i < GoInt.len a ->
  exists x : A, nth_error a (Z.to_nat i) = Some x /\ soc.at_index a i = Val x.
Proof.
  intros H. unfold soc.at_index.
  destruct (Z.ltb_spec i 0); [lia|].
  destruct (Z.leb_spec (GoInt.len a) i); [lia|]. cbn [orb].
  destruct (nth_error a (Z.to_nat i)) as [y|] eqn:Hn.
  - exists y. split; reflexivity.
  - apply nth_error_None in Hn. unfold GoInt.len in H. lia.
Qed.

Lemma at_index_out a (i : Z) :
  i < 0 \/ GoInt.len a <= i -> soc.at_index a i = Panic IndexOutOfRange.
Proof.
  intros H. unfold soc.at_index.
  destruct (Z.ltb_spec i 0); [reflexivity|].
  destruct (Z.leb_spec (GoInt.len a) i); [reflexivity | lia].
Qed.

(** [a[i]] is decided by the length and the element at that position. *)
Lemma at_index_ext a b (i : Z) :
  List.length a = List.length b ->
  nth_error a (Z.to_nat i) = nth_error b (Z.to_nat i) ->
  soc.at_index a i = soc.at_index b i.
Proof.
  intros Hl Hn. unfold soc.at_index, GoInt.len. rewrite Hl, Hn. reflexivity.
Qed.

Lemma perm_store_head (h y : A) a k :
  nth_error a k = Some y -> Permutation (h :: a) (y :: soc.store a k h).
Proof.
  revert k. induction a as [|z a IH]; intros [|k] H; cbn in H; try discriminate.
  - injection H as ->. apply perm_swap.
  - cbn [soc.store].
    apply perm_trans with (z :: h :: a); [apply perm_swap|].
    apply perm_trans with (z :: y :: soc.store a k h); [|apply perm_swap].
    apply perm_skip. apply IH. exact H.
Qed.

(** Exchanging the elements at two positions permutes the slice. *)
Lemma perm_exchange a n k (x y : A) :
  nth_error a n = Some x -> nth_error a k = Some y ->
  Permutation a (soc.store (soc.store a n y) k x).
Proof.
  revert n k. induction a as [|z a IH]; intros n k Hn Hk.
  - destruct n; discriminate Hn.
  - destruct n as [|n], k as [|k]; cbn in Hn, Hk; cbn [soc.store].
    + injection Hn as ->. injection Hk as ->. apply Permutation_refl.
    + injection Hn as ->. apply perm_store_head. exact Hk.
    + injection Hk as ->. apply perm_store_head. exact Hn.
    + apply perm_skip. apply IH; assumption.
Qed.

End SliceFacts.

Section SwapClaim.

(** X12.  [Swap] on positions inside the slice exchanges the two
    elements and leaves every other position alone: the result is a
    permutation of the same length, and swapping again restores the
    slice.  With a position outside the slice it panics. *)
Theorem X12_Swap_exchanges (a : soc.FieldSet) (i j : Z) :
  (0 <= i < soc.Len a -> 0 <= j < soc.Len a ->
   exists a' : soc.FieldSet,
     soc.Swap a i j = Val a'
     /\ Permutation a a'
     /\ soc.Len a' = soc.Len a
     /\ soc.at_index a' i = soc.at_index a j
     /\ soc.at_index a' j = soc.at_index a i
     /\ (forall k, k <> i -> k <> j -> soc.at_index a' k = soc.at_index a k)
     /\ soc.Swap a' i j = Val a)
  /\ (i < 0 \/ soc.Len a <= i \/ j < 0 \/ soc.Len a <= j ->
      soc.Swap a i j = Panic IndexOutOfRange).
Proof.
  unfold soc.Len. split.
  - intros Hi Hj.
    destruct (at_index_nth a i Hi) as (fi & Hni & Hai).
    destruct (at_index_nth a j Hj) as (fj & Hnj & Haj).
    set (a' := soc.store (soc.store a (Z.to_nat i) fj) (Z.to_nat j) fi).
    assert (Hlen : List.length a' = List.length a)
      by (unfold a'; rewrite !length_store; reflexivity).
    assert (Hli : (Z.to_nat i <? List.length a)%nat = true)
      by (apply Nat.ltb_lt; unfold GoInt.len in Hi; lia).
    assert (Hlj : (Z.to_nat j <? List.length a)%nat = true)
      by (apply Nat.ltb_lt; unfold GoInt.len in Hj; lia).
    assert (Hnth : forall k,
               nth_error a' k =
                 if (k =? Z.to_nat j)%nat then Some fi
                 else if (k =? Z.to_nat i)%nat then Some fj
                      else nth_error a k).
    { intros k. unfold a'. rewrite !nth_error_store, length_store.
      destruct (Nat.eqb_spec k (Z.to_nat j)) as [->|Hkj].
      - rewrite Hlj. reflexivity.
      - cbn [andb]. destruct (Nat.eqb_spec k (Z.to_nat i)) as [->|Hki].
        + rewrite Hli. reflexivity.
        + reflexivity. }
    assert (Hai' : soc.at_index a' i = Val fj /\ soc.at_index a' j = Val fi).
    { split.
      - rewrite <- Haj. destruct (Z.eq_dec i j) as [->|Hne].
        + apply at_index_ext; [exact Hlen|]. rewrite Hnth, Nat.eqb_refl.
          rewrite Hni in Hnj. congruence.
        + unfold soc.at_index at 1, GoInt.len. rewrite Hlen.
          destruct (Z.ltb_spec i 0); [lia|].
          destruct (Z.leb_spec (Z.of_nat (List.length a)) i);
            [unfold GoInt.len in Hi; lia|]. cbn [orb].
          rewrite Hnth.
          destruct (Nat.eqb_spec (Z.to_nat i) (Z.to_nat j)); [lia|].
          rewrite Nat.eqb_refl. symmetry. exact Haj.
      - rewrite <- Hai.
        unfold soc.at_index at 1, GoInt.len. rewrite Hlen.
        destruct (Z.ltb_spec j 0); [lia|].
        destruct (Z.leb_spec (Z.of_nat (List.length a)) j);
          [unfold GoInt.len in Hj; lia|]. cbn [orb].
        rewrite Hnth, Nat.eqb_refl. symmetry. exact Hai. }
    exists a'. split; [|split; [|split; [|split; [|split; [|split]]]]].
    + unfold soc.Swap. rewrite Hai, Haj. reflexivity.
    + apply perm_exchange; assumption.
    + unfold GoInt.len. rewrite Hlen. reflexivity.
    + rewrite Haj. apply Hai'.
    + rewrite Hai. apply Hai'.
    + intros k Hki Hkj.
      destruct (Z.ltb_spec k 0) as [Hneg|Hpos].
      * rewrite !at_index_out by (left; exact Hneg). reflexivity.
      * apply at_index_ext; [exact Hlen|]. rewrite Hnth.
        destruct (Nat.eqb_spec (Z.to_nat k) (Z.to_nat j)); [lia|].
        destruct (Nat.eqb_spec (Z.to_nat k) (Z.to_nat i)); [lia|].
        reflexivity.
    + unfold soc.Swap. destruct Hai' as [-> ->].
      apply (f_equal (@Val soc.FieldSet)).
      apply nth_error_ext. intros k.
      rewrite !nth_error_store, length_store, Hlen, Hnth.
      destruct (Nat.eqb_spec k (Z.to_nat j)) as [->|Hkj].
      * rewrite Hlj. cbn [andb]. symmetry. exact Hnj.
      * cbn [andb]. destruct (Nat.eqb_spec k (Z.to_nat i)) as [->|Hki].
        -- rewrite Hli. cbn [andb]. symmetry. exact Hni.
        -- reflexivity.
  - intros H. unfold soc.Swap.
    destruct (soc.at_index a i) as [fi|p|] eqn:Hi.
    + apply at_index_inv in Hi. destruct Hi as [Hi _].
      rewrite at_index_out by lia. reflexivity.
    + destruct (Z.ltb_spec i 0) as [?|?];
        [rewrite at_index_out in Hi by lia; congruence|].
      destruct (Z.leb_spec (GoInt.len a) i) as [?|?];
        [rewrite at_index_out in Hi by lia; congruence|].
      destruct (at_index_nth a i) as (x & _ & Hx); [lia|]. congruence.
    + unfold soc.at_index in Hi.
      destruct ((i <? 0) || (GoInt.len a <=? i)); [discriminate Hi|].
      destruct (nth_error a (Z.to_nat i)); discriminate Hi.
Qed.

End SwapClaim.

Lemma X12_Swap_exchanges_witness :
  let f := fun (n : string) (m : Z) =>
             {| soc.Name := n; soc.Msb := m; soc.Lsb := 0; soc.Descr := "";
                soc.Fmt := None; soc.Enums := None;
                soc.cacheValid := false; soc.cacheVal := 0 |} in
  (exists a' : soc.FieldSet,
      soc.Swap [f "A"%string 1; f "B"%string 2; f "C"%string 3] 0 2 = Val a'
      /\ Permutation [f "A"%string 1; f "B"%string 2; f "C"%string 3] a'
      /\ soc.Len a' = soc.Len [f "A"%string 1; f "B"%string 2; f "C"%string 3]
      /\ soc.at_index a' 0 = soc.at_index [f "A"%string 1; f "B"%string 2; f "C"%string 3] 2
      /\ soc.at_index a' 2 = soc.at_index [f "A"%string 1; f "B"%string 2; f "C"%string 3] 0
      /\ (forall k, k <> 0 -> k <> 2 ->
          soc.at_index a' k = soc.at_index [f "A"%string 1; f "B"%string 2; f "C"%string 3] k)
      /\ soc.Swap a' 0 2 = Val [f "A"%string 1; f "B"%string 2; f "C"%string 3])
  /\ soc.Swap [f "A"%string 1; f "B"%string 2; f "C"%string 3] 0 3 = Panic IndexOutOfRange.
Proof.
  cbv zeta. split.
  - apply (proj1 (X12_Swap_exchanges _ 0 2));
      split; vm_compute; first [discriminate | reflexivity].
  - apply (proj2 (X12_Swap_exchanges _ 0 3)).
    right. right. right. vm_compute. discriminate.
Defined.

Section DisplayClaims.

Variable Bits : Z -> Z -> Z -> Z.

(** X13.  [Display] marks a change against the value cached by the
    display before it: after a display of v1, the display of v2 returns
    the strings of a first display of v2, with " *" appended to the
    value string exactly when the two field values differ; it leaves
    the new field value in the cache and the rest of the field as it
    was. *)
Theorem X13_Display_change_marker (f : soc.Field) (v1 v2 : Z) :
  let x1 := Bits v1 (soc.Msb f) (soc.Lsb f) in
  let x2 := Bits v2 (soc.Msb f) (soc.Lsb f) in
  let f1 := snd (soc.Display Bits f v1) in
  let r2 := soc.Display Bits f1 v2 in
  exists n v d : string,
    fst (soc.Display Bits (soc.uncached f) v2) = [n; v; EmptyString; d]
    /\ fst r2 = [n; (v ++ (if (x1 =? x2)%Z then "" else " *"))%string; EmptyString; d]
    /\ soc.cacheValid (snd r2) = true
    /\ soc.cacheVal (snd r2) = x2
    /\ soc.uncached (snd r2) = soc.uncached f.
Proof.
  cbv zeta. unfold soc.Display, soc.uncached, soc.value_name.
  cbn [fst snd soc.Name soc.Msb soc.Lsb soc.Descr soc.Fmt soc.Enums
         soc.cacheValid soc.cacheVal].
  rewrite andb_false_r, andb_true_r.
  rewrite (Z.eqb_sym (Bits v2 (soc.Msb f) (soc.Lsb f))).
  eexists. eexists. eexists. split; [reflexivity|].
  split; [|repeat split].
  destruct (Bits v2 (soc.Msb f) (soc.Lsb f) <? 10);
    destruct (Bits v1 (soc.Msb f) (soc.Lsb f) =? Bits v2 (soc.Msb f) (soc.Lsb f));
    cbn [negb]; rewrite ?string_app_nil_r, ?string_app_assoc;
    rewrite ?string_app_nil_r; reflexivity.
Qed.

Lemma DisplayH_loop_formatters (fs : list soc.Field) (val : Z) :
  forall s,
    Forall (fun f => soc.Fmt f <> None) fs ->
    soc.DisplayH_loop Bits fs val s =
      Val (s ++ map (fun f =>
                       (soc.Name f ++ " "
                        ++ soc.value_name f (Bits val (soc.Msb f) (soc.Lsb f)))%string)
                 fs).
Proof.
  induction fs as [|f rest IH]; intros s Hall.
  - cbn. rewrite app_nil_r. reflexivity.
  - inversion Hall as [|? ? Hf Hrest]; subst.
    cbn [soc.DisplayH_loop map]. unfold soc.value_name.
    destruct (soc.Fmt f) as [g|]; [|contradiction].
    rewrite (IH _ Hrest), <- app_assoc. reflexivity.
Qed.

Lemma DisplayH_loop_nil_formatter (fs : list soc.Field) (val : Z) :
  forall s,
    Exists (fun f => soc.Fmt f = None) fs ->
    soc.DisplayH_loop Bits fs val s = Panic NilDereference.
Proof.
  induction fs as [|f rest IH]; intros s Hex.
  - inversion Hex.
  - cbn [soc.DisplayH_loop].
    destruct (soc.Fmt f) as [g|] eqn:Hg; [|reflexivity].
    inversion Hex as [? ? Hf|? ? Hrest]; subst; [congruence|].
    apply IH. exact Hrest.
Qed.

(** X14.  [DisplayH] needs a formatter on every field: it returns, with
    "Name value" of each field in order joined by spaces, when every
    field has one, and panics on the call of a nil function when some
    field has none. *)
Theorem X14_DisplayH_formatters (fs : list soc.Field) (val : Z) :
  (Forall (fun f => soc.Fmt f <> None) fs ->
   soc.DisplayH Bits fs val =
     Val (Join (map (fun f =>
                       (soc.Name f ++ " "
                        ++ soc.value_name f (Bits val (soc.Msb f) (soc.Lsb f)))%string)
                  fs) " "))
  /\ (Exists (fun f => soc.Fmt f = None) fs ->
      soc.DisplayH Bits fs val = Panic NilDereference).
Proof.
  split; intros H; unfold soc.DisplayH.
  - rewrite (DisplayH_loop_formatters fs val [] H). reflexivity.
  - rewrite (DisplayH_loop_nil_formatter fs val [] H). reflexivity.
Qed.

End DisplayClaims.

Lemma X14_DisplayH_formatters_witness :
  let bits := fun x msb lsb => Z.land (Z.shiftr x lsb) (Z.ones (msb - lsb + 1)) in
  let f := fun (n : string) (m l : Z) (g : option (Z -> string)) =>
             {| soc.Name := n; soc.Msb := m; soc.Lsb := l; soc.Descr := "";
                soc.Fmt := g; soc.Enums := None;
                soc.cacheValid := false; soc.cacheVal := 0 |} in
  soc.DisplayH bits [f "hi"%string 7 4 (Some fmt_d); f "lo"%string 3 0 (Some soc.fmt_x)] 0x5c
    = Val "hi 5 lo c"%string
  /\ soc.DisplayH bits [f "hi"%string 7 4 (Some fmt_d); f "lo"%string 3 0 None] 0x5c
     = Panic NilDereference.
Proof.
  cbv zeta. split.
  - refine (proj1 (X14_DisplayH_formatters _ _ 0x5c) _).
    repeat constructor; discriminate.
  - refine (proj2 (X14_DisplayH_formatters _ _ 0x5c) _).
    apply Exists_cons_tl. apply Exists_cons_hd. reflexivity.
Defined.

(* ===================================================================== *)
(** ** RISC-V instruction words *)

Section BitFacts.

Lemma testbit_small (x w i : Z) : 0 <= x < 2 ^ w -> w <= i -> Z.testbit x i = false.
Proof.
  intros Hx Hi. destruct (Z.eq_dec x 0) as [->|Hne]; [apply Z.bits_0|].
  apply Z.bits_above_log2; [lia|].
  assert (Hw : 0 <= w).
  { destruct (Z.ltb_spec w 0) as [Hneg|]; [|lia].
    rewrite (Z.pow_neg_r 2 w Hneg) in Hx. lia. }
  assert (Z.log2 x < w) by (apply Z.log2_lt_pow2; lia). lia.
Qed.

Lemma testbit_shl (x n i : Z) :
  0 <= i < 64 -> Z.testbit (rv.shl x n) i = Z.testbit x (i - n).
Proof.
  intros Hi. unfold rv.shl, GoInt.uint.
  rewrite Z.mod_pow2_bits_low by lia. apply Z.shiftl_spec. lia.
Qed.

Lemma testbit_uint32 (x i : Z) :
  0 <= i < 32 -> Z.testbit (rv.uint32 x) i = Z.testbit x i.
Proof. intros Hi. unfold rv.uint32. apply Z.mod_pow2_bits_low. lia. Qed.

Lemma testbit_field (ins msb lsb i : Z) :
  0 <= i -> 0 <= lsb <= msb ->
  Z.testbit (rv.field ins msb lsb) i
    = Z.testbit ins (i + lsb) && (i <=? msb - lsb).
Proof.
  intros Hi Hl. unfold rv.field.
  rewrite Z.land_spec, Z.shiftr_spec, Z.testbit_ones_nonneg by lia.
  f_equal.
  destruct (Z.ltb_spec i (msb - lsb + 1)), (Z.leb_spec i (msb - lsb));
    try reflexivity; lia.
Qed.

(** A field of a 32-bit word is the value [v] when the word has the bits
    of [v] there and [v] fits the field. *)
Lemma field_eq (x v msb lsb : Z) :
  0 <= lsb <= msb -> msb < 32 ->
  0 <= v < 2 ^ (msb - lsb + 1) ->
  (forall i, 0 <= i <= msb - lsb -> Z.testbit x (i + lsb) = Z.testbit v i) ->
  rv.field (rv.uint32 x) msb lsb = v.
Proof.
  intros Hl Hm Hv Hbits. apply Z.bits_inj'. intros i Hi.
  rewrite testbit_field by lia.
  destruct (Z.leb_spec i (msb - lsb)) as [Hin|Hout].
  - rewrite andb_true_r, testbit_uint32 by lia. apply Hbits. lia.
  - rewrite andb_false_r. symmetry.
    apply (testbit_small v (msb - lsb + 1)); [exact Hv | lia].
Qed.

End BitFacts.

(** Clears from a sum of bits the terms that lie outside their operand:
    a shifted operand read below its shift, a small operand read above
    its width. *)
Ltac clear_bits :=
  repeat match goal with
    | |- context [Z.testbit ?x ?j] =>
        first [ rewrite (Z.testbit_neg_r x j) by lia
              | rewrite (testbit_small x 2 j) by lia
              | rewrite (testbit_small x 3 j) by lia
              | rewrite (testbit_small x 5 j) by lia
              | rewrite (testbit_small x 7 j) by lia ]
    end;
  rewrite ?orb_false_l, ?orb_false_r.

Section Formats.

(** The word of an instruction of the I format, put together as
    [ins.go] does: [(imm << 20) | (rs1 << 15) | (rd << 7) | opcode] with
    funct3 and the 7-bit opcode in the constant. *)
Lemma itype_fields (imm rs1 rd f3 opc : Z) :
  0 <= rs1 < 32 -> 0 <= rd < 32 -> 0 <= f3 < 8 -> 0 <= opc < 128 ->
  let ins := rv.uint32 (Z.lor (Z.lor (Z.lor (rv.shl imm 20) (rv.shl rs1 15))
                                 (rv.shl rd 7))
                          (Z.lor (Z.shiftl f3 12) opc)) in
  rv.opcode ins = opc /\ rv.rd_of ins = rd /\ rv.funct3 ins = f3
  /\ rv.rs1_of ins = rs1 /\ rv.imm_i ins = imm mod 2 ^ 12.
Proof.
  intros Hrs1 Hrd Hf3 Hopc. cbv zeta.
  unfold rv.opcode, rv.rd_of, rv.funct3, rv.rs1_of, rv.imm_i.
  repeat split; apply field_eq; try lia;
    try (apply Z.mod_pos_bound; lia);
    intros i Hi;
    rewrite !Z.lor_spec, !testbit_shl, Z.shiftl_spec by lia;
    clear_bits;
    try (rewrite Z.mod_pow2_bits_low by lia);
    f_equal; lia.
Qed.

(** The word of an instruction of the S format:
    [(hi << 25) | (rs2 << 20) | (rs1 << 15) | (lo << 7) | opcode]. *)
Lemma stype_fields (hi rs2 rs1 lo f3 opc : Z) :
  0 <= rs2 < 32 -> 0 <= rs1 < 32 -> 0 <= lo < 32 -> 0 <= f3 < 8 -> 0 <= opc < 128 ->
  let ins := rv.uint32 (Z.lor (Z.lor (Z.lor (Z.lor (rv.shl hi 25) (rv.shl rs2 20))
                                        (rv.shl rs1 15))
                                 (rv.shl lo 7))
                          (Z.lor (Z.shiftl f3 12) opc)) in
  rv.opcode ins = opc /\ rv.rd_of ins = lo /\ rv.funct3 ins = f3
  /\ rv.rs1_of ins = rs1 /\ rv.rs2_of ins = rs2 /\ rv.imm_s_hi ins = hi mod 2 ^ 7.
Proof.
  intros Hrs2 Hrs1 Hlo Hf3 Hopc. cbv zeta.
  unfold rv.opcode, rv.rd_of, rv.funct3, rv.rs1_of, rv.rs2_of, rv.imm_s_hi.
  repeat split; apply field_eq; try lia;
    try (apply Z.mod_pos_bound; lia);
    intros i Hi;
    rewrite !Z.lor_spec, !testbit_shl, Z.shiftl_spec by lia;
    clear_bits;
    try (rewrite Z.mod_pow2_bits_low by lia);
    f_equal; lia.
Qed.

(** The same, for the constant [k] of an instruction that holds funct3
    and the opcode. *)
Lemma itype_word (imm rs1 rd f3 opc k : Z) :
  k = Z.lor (Z.shiftl f3 12) opc ->
  0 <= rs1 < 32 -> 0 <= rd < 32 -> 0 <= f3 < 8 -> 0 <= opc < 128 ->
  let ins := rv.uint32 (Z.lor (Z.lor (Z.lor (rv.shl imm 20) (rv.shl rs1 15))
                                 (rv.shl rd 7)) k) in
  (rv.opcode ins, rv.funct3 ins, rv.rd_of ins, rv.rs1_of ins, rv.imm_i ins)
    = (opc, f3, rd, rs1, imm mod 2 ^ 12).
Proof.
  intros -> Hrs1 Hrd Hf3 Hopc.
  destruct (itype_fields imm rs1 rd f3 opc Hrs1 Hrd Hf3 Hopc)
    as (H1 & H2 & H3 & H4 & H5).
  cbv zeta in *. rewrite H1, H2, H3, H4, H5. reflexivity.
Qed.

Lemma stype_word (hi rs2 rs1 lo f3 opc k : Z) :
  k = Z.lor (Z.shiftl f3 12) opc ->
  0 <= rs2 < 32 -> 0 <= rs1 < 32 -> 0 <= lo < 32 -> 0 <= f3 < 8 -> 0 <= opc < 128 ->
  let ins := rv.uint32 (Z.lor (Z.lor (Z.lor (Z.lor (rv.shl hi 25) (rv.shl rs2 20))
                                        (rv.shl rs1 15))
                                 (rv.shl lo 7)) k) in
  (rv.opcode ins, rv.funct3 ins, rv.rs1_of ins, rv.rs2_of ins,
   rv.imm_s_hi ins, rv.rd_of ins)
    = (opc, f3, rs1, rs2, hi mod 2 ^ 7, lo).
Proof.
  intros -> Hrs2 Hrs1 Hlo Hf3 Hopc.
  destruct (stype_fields hi rs2 rs1 lo f3 opc Hrs2 Hrs1 Hlo Hf3 Hopc)
    as (H1 & H2 & H3 & H4 & H5 & H6).
  cbv zeta in *. rewrite H1, H2, H3, H4, H5, H6. reflexivity.
Qed.

End Formats.

Section InstructionClaims.

Variable Bits : Z -> Z -> Z -> Z.
Variable RegZero : Z.

(** X15.  For register numbers below 32, the words of [InsLD], [InsLW],
    [InsLH], [InsLB] and [InsADDI] decode to the LOAD opcode 0x03 with
    funct3 3, 2, 1, 0 (OP-IMM 0x13 with funct3 0 for addi), to the
    registers given, and to the low 12 bits of [util.Bits(ofs, 11, 0)]
    as the immediate. *)
Theorem X15_itype_words (rd ofs rs1 : Z) :
  0 <= rd < 32 -> 0 <= rs1 < 32 ->
  let imm := Bits ofs 11 0 mod 2 ^ 12 in
  rv.decode_i (rv.InsLD Bits rd ofs rs1) = (0x03, 3, rd, rs1, imm)
  /\ rv.decode_i (rv.InsLW Bits rd ofs rs1) = (0x03, 2, rd, rs1, imm)
  /\ rv.decode_i (rv.InsLH Bits rd ofs rs1) = (0x03, 1, rd, rs1, imm)
  /\ rv.decode_i (rv.InsLB Bits rd ofs rs1) = (0x03, 0, rd, rs1, imm)
  /\ rv.decode_i (rv.InsADDI Bits rd rs1 ofs) = (0x13, 0, rd, rs1, imm).
Proof.
  intros Hrd Hrs1. cbv zeta. unfold rv.decode_i.
  split; [|split; [|split; [|split]]].
  - apply (itype_word (Bits ofs 11 0) rs1 rd 3 0x03 rv.opcodeLD); [reflexivity|lia..].
  - apply (itype_word (Bits ofs 11 0) rs1 rd 2 0x03 rv.opcodeLW); [reflexivity|lia..].
  - apply (itype_word (Bits ofs 11 0) rs1 rd 1 0x03 rv.opcodeLH); [reflexivity|lia..].
  - apply (itype_word (Bits ofs 11 0) rs1 rd 0 0x03 rv.opcodeLB); [reflexivity|lia..].
  - apply (itype_word (Bits ofs 11 0) rs1 rd 0 0x13 rv.opcodeADDI); [reflexivity|lia..].
Qed.

(** X16.  For register numbers below 32 and [util.Bits(ofs, 4, 0)] below
    32, the words of [InsSD], [InsSW], [InsSH] and [InsSB] decode to the
    STORE opcode 0x23 with funct3 3, 2, 1, 0, to the registers given,
    and to the immediate split as the S format has it: the low 7 bits of
    [util.Bits(ofs, 11, 5)] in bits 31:25 and [util.Bits(ofs, 4, 0)] in
    bits 11:7. *)
Theorem X16_stype_words (rs2 ofs rs1 : Z) :
  0 <= rs2 < 32 -> 0 <= rs1 < 32 -> 0 <= Bits ofs 4 0 < 32 ->
  let hi := Bits ofs 11 5 mod 2 ^ 7 in
  let lo := Bits ofs 4 0 in
  rv.decode_s (rv.InsSD Bits rs2 ofs rs1) = (0x23, 3, rs1, rs2, hi, lo)
  /\ rv.decode_s (rv.InsSW Bits rs2 ofs rs1) = (0x23, 2, rs1, rs2, hi, lo)
  /\ rv.decode_s (rv.InsSH Bits rs2 ofs rs1) = (0x23, 1, rs1, rs2, hi, lo)
  /\ rv.decode_s (rv.InsSB Bits rs2 ofs rs1) = (0x23, 0, rs1, rs2, hi, lo).
Proof.
  intros Hrs2 Hrs1 Hlo. cbv zeta. unfold rv.decode_s.
  split; [|split; [|split]].
  - apply (stype_word (Bits ofs 11 5) rs2 rs1 (Bits ofs 4 0) 3 0x23 rv.opcodeSD);
      [reflexivity|lia..].
  - apply (stype_word (Bits ofs 11 5) rs2 rs1 (Bits ofs 4 0) 2 0x23 rv.opcodeSW);
      [reflexivity|lia..].
  - apply (stype_word (Bits ofs 11 5) rs2 rs1 (Bits ofs 4 0) 1 0x23 rv.opcodeSH);
      [reflexivity|lia..].
  - apply (stype_word (Bits ofs 11 5) rs2 rs1 (Bits ofs 4 0) 0 0x23 rv.opcodeSB);
      [reflexivity|lia..].
Qed.

(** X17.  For register numbers below 32 (the source's [RegZero]
    included), [InsCSRR] is csrrs with rs1 = [RegZero] and [InsCSRW] is
    csrrw with rd = [RegZero]: SYSTEM opcode 0x73, funct3 2 and 1, the
    other register as given and the low 12 bits of csr as the CSR
    address. *)
Theorem X17_csr_words (r csr : Z) :
  0 <= r < 32 -> 0 <= RegZero < 32 ->
  rv.decode_i (rv.InsCSRR RegZero r csr) = (0x73, 2, r, RegZero, csr mod 2 ^ 12)
  /\ rv.decode_i (rv.InsCSRW RegZero csr r) = (0x73, 1, RegZero, r, csr mod 2 ^ 12).
Proof.
  intros Hr Hz. unfold rv.decode_i. split.
  - apply (itype_word csr RegZero r 2 0x73 rv.opcodeCSRRS); [reflexivity|lia..].
  - apply (itype_word csr r RegZero 1 0x73 rv.opcodeCSRRW); [reflexivity|lia..].
Qed.

End InstructionClaims.

Lemma X15_itype_words_witness :
  rv.decode_i (rv.InsLW rv.bits_of 10 8 2) = (0x03, 2, 10, 2, 8)
  /\ rv.decode_i (rv.InsADDI rv.bits_of 2 2 (-16)) = (0x13, 0, 2, 2, 0xff0).
Proof.
  split.
  - refine (proj1 (proj2 (X15_itype_words rv.bits_of 10 8 2 _ _))); lia.
  - refine (proj2 (proj2 (proj2 (proj2 (X15_itype_words rv.bits_of 2 (-16) 2 _ _))))); lia.
Defined.

Lemma X16_stype_words_witness :
  rv.decode_s (rv.InsSW rv.bits_of 10 0x7e4 2) = (0x23, 2, 2, 10, 0x3f, 4).
Proof.
  refine (proj1 (proj2 (X16_stype_words rv.bits_of 10 0x7e4 2 _ _ _)));
    vm_compute; split; first [discriminate | reflexivity].
Defined.

Lemma X17_csr_words_witness :
  rv.decode_i (rv.InsCSRR 0 8 0x7b0) = (0x73, 2, 8, 0, 0x7b0)
  /\ rv.decode_i (rv.InsCSRW 0 0x7b0 8) = (0x73, 1, 0, 8, 0x7b0).
Proof.
  exact (X17_csr_words 0 8 0x7b0 ltac:(lia) ltac:(lia)).
Defined.

Section UncheckedRegisters.

Variable Bits : Z -> Z -> Z -> Z.

Lemma testbit_shl_high (x n i : Z) : 64 <= i -> Z.testbit (rv.shl x n) i = false.
Proof.
  intros Hi. unfold rv.shl, GoInt.uint. apply Z.mod_pow2_bits_high. lia.
Qed.

Lemma add_32_lor (r : Z) : 0 <= r < 32 -> r + 32 = Z.lor r 32.
Proof.
  intros Hr.
  assert (Hl : Z.land r 32 = 0).
  { apply Z.bits_inj'. intros i Hi. rewrite Z.land_spec, Z.bits_0.
    destruct (Z.eq_dec i 5) as [->|Hne].
    - rewrite (testbit_small r 5 5) by lia. reflexivity.
    - change 32 with (2 ^ 5). rewrite Z.pow2_bits_eqb by lia.
      destruct (Z.eqb_spec 5 i); [lia|]. apply andb_false_r. }
  rewrite (Z.add_nocarry_lxor _ _ Hl). apply Z.lxor_lor. exact Hl.
Qed.

(** X18.  The encoders do not check or mask a register number: one that
    is 32 too large reaches into funct3, so that the word of
    [InsLB] for rd + 32 is the word of [InsLH] for rd. *)
Theorem X18_register_not_masked (rd ofs rs1 : Z) :
  0 <= rd < 32 ->
  rv.InsLB Bits (rd + 32) ofs rs1 = rv.InsLH Bits rd ofs rs1.
Proof.
  intros Hrd. unfold rv.InsLB, rv.InsLH. rewrite (add_32_lor rd Hrd).
  change rv.opcodeLH with (Z.lor 3 (Z.shiftl 32 7)). change rv.opcodeLB with 3.
  f_equal. apply Z.bits_inj'. intros i Hi. rewrite !Z.lor_spec.
  destruct (Z.ltb_spec i 64) as [Hlo|Hhi].
  - rewrite !testbit_shl, Z.lor_spec, Z.shiftl_spec by lia.
    destruct (Z.testbit (Bits ofs 11 0) (i - 20)), (Z.testbit rs1 (i - 15)),
      (Z.testbit rd (i - 7)), (Z.testbit 32 (i - 7)), (Z.testbit 3 i); reflexivity.
  - rewrite !testbit_shl_high, Z.shiftl_spec by lia.
    rewrite (testbit_small 32 6 (i - 7)) by lia.
    rewrite ?orb_false_r, ?orb_false_l. reflexivity.
Qed.

End UncheckedRegisters.

Lemma X18_register_not_masked_witness :
  rv.InsLB rv.bits_of 42 8 2 = rv.InsLH rv.bits_of 10 8 2.
Proof.
  exact (X18_register_not_masked rv.bits_of 10 8 2 ltac:(lia)).
Defined.

(* ===================================================================== *)
(** ** The gd32vf103 flash driver *)

Section FlashClaims.

Import gd32vf103.

Context {St : Type}.

(** X19.  [unlock] reads CTL0 first.  With the lock bit clear it writes
    nothing and succeeds.  With the lock bit set it writes the two keys
    to KEY0, in order, and then 0 to CTL0; a key write that fails ends
    it there with that error. *)
Theorem X19_unlock (d : FlashDriver St) (w : World St) (ctl : Z) (st1 : St) :
  Rd (drv d) (fmc d) "CTL0" (fst w) = ((ctl, None), st1) ->
  (Z.land ctl ctlLK = 0 ->
   unlock d w = (None, (st1, snd w ++ [ARd "CTL0"])))
  /\ (Z.land ctl ctlLK <> 0 ->
      (forall st2 st3 st4,
          Wr (drv d) (fmc d) "KEY0" 0x45670123 st1 = (None, st2) ->
          Wr (drv d) (fmc d) "KEY0" 0xCDEF89AB st2 = (None, st3) ->
          Wr (drv d) (fmc d) "CTL0" 0 st3 = (None, st4) ->
          unlock d w =
            (None, (st4, snd w ++ [ARd "CTL0"; AWr "KEY0" 0x45670123;
                                   AWr "KEY0" 0xCDEF89AB; AWr "CTL0" 0])))
      /\ (forall e st2,
             Wr (drv d) (fmc d) "KEY0" 0x45670123 st1 = (Some e, st2) ->
             unlock d w =
               (Some e, (st2, snd w ++ [ARd "CTL0"; AWr "KEY0" 0x45670123])))).
Proof.
  intros Hrd. unfold unlock, fmcRd. rewrite Hrd. split.
  - intros H0. rewrite H0. reflexivity.
  - intros Hlk. destruct (Z.eqb_spec (Z.land ctl ctlLK) 0) as [?|_]; [contradiction|].
    unfold and_then, fmcWr. cbn [fst snd]. split.
    + intros st2 st3 st4 H1 H2 H3. rewrite H1. cbn [fst snd].
      rewrite H2. cbn [fst snd]. rewrite H3.
      rewrite <- !app_assoc. reflexivity.
    + intros e st2 H1. rewrite H1. rewrite <- !app_assoc. reflexivity.
Qed.


End FlashClaims.

Lemma X19_unlock_witness :
  gd32vf103.unlock (flash_stub.flashdrv (fun _ => false)) (0x04, [])
    = (None, (0x04, [gd32vf103.ARd "CTL0"]))
  /\ gd32vf103.unlock (flash_stub.flashdrv (fun _ => false)) (0x80, [])
     = (None, (0, [gd32vf103.ARd "CTL0"; gd32vf103.AWr "KEY0" 0x45670123;
                   gd32vf103.AWr "KEY0" 0xCDEF89AB; gd32vf103.AWr "CTL0" 0])).
Proof.
  split.
  - exact (proj1 (X19_unlock (flash_stub.flashdrv (fun _ => false)) (0x04, []) 0x04 0x04
                    eq_refl) eq_refl).
  - refine (proj1 (proj2 (X19_unlock (flash_stub.flashdrv (fun _ => false)) (0x80, [])
                            0x80 0x80 eq_refl) _)
              0x80 0x80 0 eq_refl eq_refl eq_refl).
    vm_compute. discriminate.
Defined.


Section SectorFacts.

Import gd32vf103.

Variable KiB : Z.
Hypothesis KiB_range : 0 < KiB < 2 ^ 64.

Lemma sectorSize_eq : sectorSize KiB = KiB.
Proof. unfold sectorSize. rewrite Z.mul_1_l. apply uint_small. lia. Qed.

(** The region of the page at [addr] with number [i]. *)
Lemma sector_loop_run (p : Peripheral) (n : nat) :
  forall (fuel : nat) (addr i : Z) (r : list Region),
    (n < fuel)%nat ->
    0 <= Addr p + Size p -> Addr p + Size p + KiB <= 2 ^ 64 ->
    0 <= addr ->
    Addr p + Size p <= addr + Z.of_nat n * KiB ->
    addr + Z.of_nat n * KiB < Addr p + Size p + KiB ->
    0 <= i -> i + Z.of_nat n <= GoInt.int_max ->
    sector_loop KiB fuel p addr i r =
      Val (r ++ map (fun k => NewRegion (Name p) (addr + Z.of_nat k * KiB) KiB
                                (Some ("page " ++ fmt_d (i + Z.of_nat k))%string))
                 (seq 0 n)).
Proof.
  induction n as [|n IH]; intros fuel addr i r Hfuel Hlim0 Hlim Haddr Hge Hlt Hi Himax;
    (destruct fuel as [|fuel]; [lia|]); cbn [sector_loop];
    rewrite (uint_small (Addr p + Size p)) by lia.
  - destruct (Z.ltb_spec addr (Addr p + Size p)) as [?|_]; [lia|].
    cbn. rewrite app_nil_r. reflexivity.
  - destruct (Z.ltb_spec addr (Addr p + Size p)) as [_|?]; [|nia].
    rewrite sectorSize_eq.
    rewrite (uint_small (addr + KiB)) by nia.
    assert (Hadd : GoInt.add i 1 = i + 1).
    { unfold GoInt.add. apply wrap_small.
      unfold GoInt.in_int, GoInt.int_min, GoInt.int_max in *. lia. }
    rewrite Hadd.
    rewrite (IH fuel (addr + KiB) (i + 1)) by (try lia; nia).
    rewrite <- app_assoc. f_equal. f_equal.
    cbn [seq map app]. rewrite Z.mul_0_l, !Z.add_0_r. f_equal.
    rewrite <- seq_shift, map_map. apply map_ext. intros k.
    f_equal; [lia|]. do 3 f_equal. lia.
Qed.

End SectorFacts.

Section SectorClaims.

Import gd32vf103.

(** X21.  [flashSectors] covers the main flash with consecutive sectors
    of one KiB: for a flash of Size bytes at Addr (its end below 2^64 by
    a sector at least) there are n = ceil(Size / KiB) of them, page k at
    Addr + k * KiB, named "page k", followed by the boot area and the
    option bytes as one region each.  The last page reaches beyond the
    flash when Size is not a multiple of the sector size. *)
Theorem X21_flashSectors_layout (KiB : Z) (d : Device) (p b o : Peripheral)
    (n fuel : nat) :
  0 < KiB < 2 ^ 64 ->
  fst (GetPeripheral d "flash") = Some p ->
  fst (GetPeripheral d "boot") = Some b ->
  fst (GetPeripheral d "option") = Some o ->
  0 <= Addr p -> 0 <= Size p -> Addr p + Size p + KiB <= 2 ^ 64 ->
  Size p <= Z.of_nat n * KiB < Size p + KiB ->
  Z.of_nat n <= GoInt.int_max ->
  (n < fuel)%nat ->
  flashSectors KiB fuel d =
    Val (pages KiB (Name p) (Addr p) n
         ++ [NewRegion (Name b) (Addr b) (Size b) (Some "boot loader area"%string);
             NewRegion (Name o) (Addr o) (Size o) (Some "option bytes"%string)]).
Proof.
  intros HK Hp Hb Ho Ha Hs Hlim Hn Hmax Hfuel.
  unfold flashSectors, peripheral. rewrite Hp, Hb, Ho.
  rewrite (uint_small (Addr p)) by lia.
  rewrite (sector_loop_run KiB HK p n fuel (Addr p) 0 []) by lia.
  cbn [app]. unfold pages. rewrite (sectorSize_eq KiB HK).
  rewrite <- app_assoc. reflexivity.
Qed.


End SectorClaims.

Lemma X21_flashSectors_layout_witness :
  gd32vf103.flashSectors 1024 4 flash_stub.part =
    Val [ gd32vf103.NewRegion "flash" 0x08000000 1024 (Some "page 0"%string);
          gd32vf103.NewRegion "flash" 0x08000400 1024 (Some "page 1"%string);
          gd32vf103.NewRegion "flash" 0x08000800 1024 (Some "page 2"%string);
          gd32vf103.NewRegion "boot" 0x1fffb000 18432 (Some "boot loader area"%string);
          gd32vf103.NewRegion "option" 0x1ffff800 16 (Some "option bytes"%string) ].
Proof.
  refine (X21_flashSectors_layout 1024 flash_stub.part
            {| gd32vf103.Name := "flash"; gd32vf103.Addr := 0x08000000;
               gd32vf103.Size := 2560 |}
            {| gd32vf103.Name := "boot"; gd32vf103.Addr := 0x1fffb000;
               gd32vf103.Size := 18432 |}
            {| gd32vf103.Name := "option"; gd32vf103.Addr := 0x1ffff800;
               gd32vf103.Size := 16 |}
            3 4 _ eq_refl eq_refl eq_refl _ _ _ _ _ _);
    try (simpl; lia); vm_compute; repeat split; discriminate.
Defined.

